(** * Event Hubs event processor: partition pump and ownership control loop

    A shallow embedding of [PartitionPump] (partitionPump.ts) and
    [EventProcessor] (eventProcessor.ts) of the Event Hubs client library.

    The TypeScript code is asynchronous: it awaits the broker, the ownership
    store and the user's handlers.  An [async] function is embedded as a
    computation over the fields of its object that returns how the promise
    settles and the calls it made on the way.  What an awaited call answers is
    not decided by the code; it is an input of the computation, bundled with
    what other tasks did to the object while the code was suspended. *)

From stdpp Require Import base option list strings gmap.
From Stdlib Require Import ZArith Lia.
From Stdlib Require QArith.

Open Scope Z_scope.

(** ** JavaScript values that reach a [catch] clause *)

(** A [throw] can carry any value.  The pump inspects a caught value three
    ways: [typeof err], [err.retryable] and [err.name]. *)
Inductive JsValue : Type :=
| JsUndefined
| JsNull
| JsPrimitive (text : string)
| JsObject (name : option string) (retryable : bool).

(** [typeof v !== "object"]; note that [typeof null] is ["object"]. *)
Definition typeof_not_object (v : JsValue) : bool :=
  match v with
  | JsUndefined | JsPrimitive _ => true
  | JsNull | JsObject _ _ => false
  end.

(** The error raised by a property access on [null] or [undefined]. *)
Definition TypeError : JsValue := JsObject (Some "TypeError"%string) false.

(** An [AbortError], as raised by a cancelled operation. *)
Definition AbortError : JsValue := JsObject (Some "AbortError"%string) false.

(** ** Data model *)

Inductive CloseReason : Type :=
| EventHubException
| OwnershipLost
| Shutdown.

(** Modelled from the spec: eventPosition.ts is not among the sources; the
    positions are the ones the interface section of the specification lists. *)
Inductive EventPosition : Type :=
| earliest
| latest
| fromOffset (offset : Z)
| fromSequenceNumber (sequenceNumber : Z)
| fromEnqueuedTime (enqueuedTime : Z).

Record PartitionContext : Type := {
  pc_consumerGroupName : string;
  pc_eventHubName : string;
  pc_partitionId : string
}.

Record PartitionOwnership : Type := {
  eventHubName : string;
  consumerGroupName : string;
  ownerId : string;
  partitionId : string;
  ownerLevel : Z;
  offset : option Z;
  sequenceNumber : option Z;
  lastModifiedTimeInMS : option Z;
  eTag : option string
}.

Record EventProcessorOptions : Type := {
  initialEventPosition : option EventPosition;
  maxBatchSize : option Z;
  maxWaitTimeInSeconds : option Z
}.

(** Modelled from the spec: eventData.ts is not among the sources. *)
Record ReceivedEventData : Type := {
  body : string;
  ev_offset : Z;
  ev_sequenceNumber : Z;
  enqueuedTimeUtc : Z
}.

(** The user's handler object.  [processEvents] and [processError] are
    required; [initialize] and [close] are optional and the code tests
    [typeof handler.initialize === "function"] before calling them. *)
Record PartitionProcessor : Type := {
  initialize_defined : bool;
  close_defined : bool
}.

(** The consumer returned by [EventHubClient.createConsumer], identified by
    the arguments it was created with. *)
Record EventHubConsumer : Type := {
  c_consumerGroup : string;
  c_partitionId : string;
  c_eventPosition : EventPosition;
  c_ownerLevel : Z
}.

Inductive LogChannel : Type :=
| log_error
| log_partitionPump
| log_partitionLoadBalancer
| log_eventProcessor
| log_pumpManager.

(** ** Observable calls *)

(** What a task does that can be seen from outside: the calls it makes on
    the user's handler, the broker, the store and its collaborators, and
    the lines it logs.  A log line is recorded by the channel, the constant
    text of its template and the error it prints, if any. *)
Inductive Event : Type :=
| Log (channel : LogChannel) (message : string) (detail : option JsValue)
(* the user's handler *)
| CallInitialize (partition : string)
| CallProcessEvents (partition : string) (events : list ReceivedEventData)
| CallProcessError (partition : string) (err : JsValue)
| CallClose (partition : string) (reason : CloseReason)
| CallFactory (context : PartitionContext)
(* the broker *)
| CreateConsumer (consumerGroup partition : string) (position : EventPosition)
    (level : Z)
| ReceiveBatch (partition : string) (maxMessageCount : Z)
    (maxWaitTimeInSeconds : option Z)
| CloseReceiver (partition : string)
| AbortPump (partition : string)
| GetPartitionIds
(* the ownership store *)
| ListOwnership (hub group : string)
| ClaimOwnership (requests : list PartitionOwnership)
(* the processor's own machinery *)
| LoadBalance (partitionIds : list string)
| CreatePump (context : PartitionContext) (startPosition : EventPosition)
| RemoveAllPumps (reason : CloseReason)
| NewAbortController (controller : nat)
| Abort (controller : nat)
| LaunchLoop (signal : nat)
| AwaitLoopTask (task : nat)
| Delay (milliseconds : Z) (signal : nat).

(** ** Asynchronous computations *)

(** How a promise settles. *)
Inductive Settled (A : Type) : Type :=
| Resolved (value : A)
| Rejected (reason : JsValue).
Arguments Resolved {A} value.
Arguments Rejected {A} reason.

(** What the environment does with one awaited call: how the call settles,
    and whether another task interfered with the object in the meantime. *)
Record Awaited (A : Type) : Type := {
  settles : Settled A;
  interfered : bool
}.
Arguments settles {A} _.
Arguments interfered {A} _.

Definition undisturbed {A : Type} (s : Settled A) : Awaited A :=
  {| settles := s; interfered := false |}.

(** A computation over an object of type [S]: the settlement, the object
    afterwards, and the calls made, in order. *)
Definition Async (Obj A : Type) : Type := Obj → Settled A * Obj * list Event.

Section AsyncOps.
Context {Obj : Type}.

Definition ret {A : Type} (a : A) : Async Obj A := λ s, (Resolved a, s, []).

Definition bind {A B : Type} (k : A → Async Obj B) (m : Async Obj A)
  : Async Obj B :=
  λ s, match m s with
       | (Resolved a, s1, t1) =>
           match k a s1 with (r, s2, t2) => (r, s2, t1 ++ t2) end
       | (Rejected e, s1, t1) => (Rejected e, s1, t1)
       end.

Definition throw {A : Type} (e : JsValue) : Async Obj A :=
  λ s, (Rejected e, s, []).

(** [try { m } catch (err) { handler err }] *)
Definition try_catch {A : Type} (m : Async Obj A) (handler : JsValue → Async Obj A)
  : Async Obj A :=
  λ s, match m s with
       | (Rejected e, s1, t1) =>
           match handler e s1 with (r, s2, t2) => (r, s2, t1 ++ t2) end
       | ok => ok
       end.

Definition emit (e : Event) : Async Obj unit := λ s, (Resolved tt, s, [e]).

Definition gets {A : Type} (f : Obj → A) : Async Obj A :=
  λ s, (Resolved (f s), s, []).

Definition modify (f : Obj → Obj) : Async Obj unit :=
  λ s, (Resolved tt, f s, []).

Definition settle {A : Type} (r : Settled A) : Async Obj A :=
  λ s, (r, s, []).

(** [await call]: the call is made, the task is suspended, another task
    may run [meanwhile] on the same object, and the call settles. *)
Definition await {A : Type} (call : Event) (meanwhile : Obj → Obj)
    (answer : Awaited A) : Async Obj A :=
  bind (λ _, bind (λ _, settle (settles answer))
               (modify (if interfered answer then meanwhile else id)))
       (emit call).

(** Calling an [async] function without awaiting it: the promise it
    returns is dropped, whichever way it settles.  The calls of the
    launched task are recorded where the task is launched; in time they
    interleave with what the caller does next. *)
Definition detached {A : Type} (m : Async Obj A) : Async Obj unit :=
  λ s, match m s with (_, s1, t1) => (Resolved tt, s1, t1) end.

(** [try { m } finally { cleanup }]: [cleanup] runs whichever way [m]
    settles, and the settlement is that of [m] unless [cleanup] throws. *)
Definition try_finally {A : Type} (m : Async Obj A) (cleanup : Async Obj unit)
  : Async Obj A :=
  λ s, match m s with
       | (r, s1, t1) =>
           match cleanup s1 with
           | (Resolved _, s2, t2) => (r, s2, t1 ++ t2)
           | (Rejected e, s2, t2) => (Rejected e, s2, t1 ++ t2)
           end
       end.
End AsyncOps.

#[global] Instance Async_ret {Obj : Type} : MRet (Async Obj) := @ret Obj.
#[global] Instance Async_bind {Obj : Type} : MBind (Async Obj) := @bind Obj.

Definition outcome {Obj A : Type} (r : Settled A * Obj * list Event) : Settled A :=
  r.1.1.
Definition after {Obj A : Type} (r : Settled A * Obj * list Event) : Obj := r.1.2.
Definition calls {Obj A : Type} (r : Settled A * Obj * list Event) : list Event :=
  r.2.

(** [value || fallback] on an optional number: [undefined] and [0] are
    falsy. *)
Definition or_number (value : option Z) (fallback : Z) : Z :=
  match value with
  | Some n => if n =? 0 then fallback else n
  | None => fallback
  end.

(** [value || fallback] on an optional object. *)
Definition or_object {A : Type} (value : option A) (fallback : A) : A :=
  match value with
  | Some v => v
  | None => fallback
  end.

(** The conversion of a value to a string inside a template literal.
    [undefined] and [null] always convert.  For any other value the
    conversion runs code of the value itself ([Symbol.toPrimitive],
    [toString], [valueOf]) and throws a [TypeError] when there is none to
    run, as for an object without a prototype or for a symbol: how it
    settles is an answer of the environment, [own]. *)
Definition to_text (own : Settled unit) (v : JsValue) : Settled unit :=
  match v with
  | JsUndefined | JsNull => Resolved tt
  | JsPrimitive _ | JsObject _ _ => own
  end.

(** How one turn of a [while] loop ends: the loop tests its condition
    again, or the function returned from inside the body. *)
Inductive Flow : Type :=
| next_turn
| returned.

(** Where a looping task stands once the environment has given all the
    answers of a script: its promise has resolved, or the task is suspended
    on the first call of the next turn, which has not settled yet. *)
Inductive Standing : Type :=
| finished
| suspended.

(** ** PartitionPump (partitionPump.ts) *)

Module PartitionPump.

Record t : Type := {
  _partitionContext : PartitionContext;
  _partitionProcessor : PartitionProcessor;
  _processorOptions : EventProcessorOptions;
  _receiver : option EventHubConsumer;
  _isReceiving : bool;
  (* whether [_abortController.signal] has been aborted *)
  _abortController : bool
}.

Definition set_receiver (r : option EventHubConsumer) (p : t) : t :=
  {| _partitionContext := _partitionContext p;
     _partitionProcessor := _partitionProcessor p;
     _processorOptions := _processorOptions p;
     _receiver := r;
     _isReceiving := _isReceiving p;
     _abortController := _abortController p |}.

Definition set_isReceiving (b : bool) (p : t) : t :=
  {| _partitionContext := _partitionContext p;
     _partitionProcessor := _partitionProcessor p;
     _processorOptions := _processorOptions p;
     _receiver := _receiver p;
     _isReceiving := b;
     _abortController := _abortController p |}.

Definition set_aborted (p : t) : t :=
  {| _partitionContext := _partitionContext p;
     _partitionProcessor := _partitionProcessor p;
     _processorOptions := _processorOptions p;
     _receiver := _receiver p;
     _isReceiving := _isReceiving p;
     _abortController := true |}.

Definition no_options : EventProcessorOptions :=
  {| initialEventPosition := None;
     maxBatchSize := None;
     maxWaitTimeInSeconds := None |}.

(** [new PartitionPump(eventHubClient, partitionContext,
    partitionProcessor, options)].  The client is the broker, which lives
    in the environment. *)
Definition new (partitionContext : PartitionContext)
    (partitionProcessor : PartitionProcessor)
    (options : option EventProcessorOptions) : t :=
  {| _partitionContext := partitionContext;
     _partitionProcessor := partitionProcessor;
     _processorOptions := or_object options no_options;
     _receiver := None;
     _isReceiving := false;
     _abortController := false |}.

Definition partition (p : t) : string := pc_partitionId (_partitionContext p).

(** What another task can do to a pump while one of the pump's own tasks
    is suspended: call [stop], whose first statement clears
    [_isReceiving] before [stop] itself suspends. *)
Definition stop_called : t → t := set_isReceiving false.

(** The answers to the calls [stop] awaits. *)
Record Closing : Type := {
  receiver_close : Settled unit;
  user_close : Settled unit
}.

Definition stop (env : Closing) (reason : CloseReason) : Async t unit :=
  modify (set_isReceiving false);;
  try_catch
    (pid ← gets partition;
     receiver ← gets _receiver;
     (if receiver is Some _
      then await (CloseReceiver pid) id (undisturbed (receiver_close env))
      else mret tt);;
     emit (AbortPump pid);;
     modify set_aborted;;
     handler ← gets _partitionProcessor;
     if close_defined handler
     then await (CallClose pid reason) id (undisturbed (user_close env))
     else mret tt)
    (λ err,
       emit (Log log_error "An error occurred while closing the receiver."
               (Some err));;
       throw err).

(** The answers to the calls one turn of the receive loop can await. *)
Record Turn : Type := {
  receiveBatch : Awaited (list ReceivedEventData);
  processEvents : Awaited unit;
  processError : Awaited unit;
  closing : Closing
}.

(** [typeof err !== "object" || !err.retryable]; reading a property of
    [null] raises a [TypeError]. *)
Definition not_retryable (err : JsValue) : Async t bool :=
  match err with
  | JsUndefined | JsPrimitive _ => mret true
  | JsNull => throw TypeError
  | JsObject _ retryable => mret (negb retryable)
  end.

(** [err.name === "ReceiverDisconnectedError"]; reading a property of
    [undefined] raises a [TypeError]. *)
Definition is_receiver_disconnected (err : JsValue) : Async t bool :=
  match err with
  | JsUndefined | JsNull => throw TypeError
  | JsPrimitive _ => mret false
  | JsObject name _ =>
      mret (bool_decide (name = Some "ReceiverDisconnectedError"%string))
  end.

(** The [catch] clause of the loop of [_receiveEvents]. *)
Definition caught (env : Turn) (err : JsValue) : Async t Flow :=
  pid ← gets partition;
  receiving ← gets _isReceiving;
  if negb receiving then mret returned
  else
    try_catch
      (await (CallProcessError pid err) stop_called (processError env))
      (λ err',
         emit (Log log_error
                 "An error was thrown by user's processError method: "
                 (Some err')));;
    fatal ← not_retryable err;
    if (fatal : bool) then
      try_catch
        (lost ← is_receiver_disconnected err;
         if (lost : bool)
         then stop (closing env) OwnershipLost;; mret returned
         else stop (closing env) EventHubException;; mret returned)
        (λ err',
           emit (Log log_error
                   "An error occurred while closing the receiver with reason EventHubException: "
                   (Some err'));;
           mret next_turn)
    else mret next_turn.

(** The body of the loop of [_receiveEvents]. *)
Definition turn (env : Turn) : Async t Flow :=
  try_catch
    (pid ← gets partition;
     options ← gets _processorOptions;
     receivedEvents ←
       await (ReceiveBatch pid (or_number (maxBatchSize options) 1)
                (maxWaitTimeInSeconds options))
         stop_called (receiveBatch env);
     receiving ← gets _isReceiving;
     if negb receiving then mret returned
     else
       await (CallProcessEvents pid receivedEvents) stop_called
         (processEvents env);;
       mret next_turn)
    (caught env).

(** [while (this._isReceiving) { ... }], with one element of the script
    for every turn.  When the script is used up the next [receiveBatch] has
    been called and has not settled. *)
Fixpoint receive_loop (script : list Turn) : Async t Standing :=
  receiving ← gets _isReceiving;
  if negb receiving then mret finished
  else
    match script with
    | [] =>
        pid ← gets partition;
        options ← gets _processorOptions;
        emit (ReceiveBatch pid (or_number (maxBatchSize options) 1)
                (maxWaitTimeInSeconds options));;
        mret suspended
    | env :: rest =>
        flow ← turn env;
        match flow with
        | returned => mret finished
        | next_turn => receive_loop rest
        end
    end.

Record Receiving : Type := {
  createConsumer : Settled unit;
  script : list Turn
}.

Definition _receiveEvents (partitionId : string) (env : Receiving)
  : Async t Standing :=
  context ← gets _partitionContext;
  options ← gets _processorOptions;
  let position := or_object (initialEventPosition options) earliest in
  emit (CreateConsumer (pc_consumerGroupName context) partitionId position 0);;
  settle (createConsumer env);;
  modify (set_receiver
            (Some {| c_consumerGroup := pc_consumerGroupName context;
                     c_partitionId := partitionId;
                     c_eventPosition := position;
                     c_ownerLevel := 0 |}));;
  receive_loop (script env).

Record Starting : Type := {
  initialize : Awaited unit;
  receiving : Receiving
}.

Definition start (env : Starting) : Async t unit :=
  modify (set_isReceiving true);;
  handler ← gets _partitionProcessor;
  pid ← gets partition;
  (if initialize_defined handler
   then try_catch (await (CallInitialize pid) stop_called (initialize env))
                  (λ _, mret tt)
   else mret tt);;
  detached (_receiveEvents pid (receiving env));;
  emit (Log log_partitionPump "Successfully started the receiver." None).

End PartitionPump.

(** Running a computation of a part inside a computation of the whole. *)
Definition zoom {Whole Part A : Type} (get : Whole → Part)
    (set : Part → Whole → Whole) (m : Async Part A) : Async Whole A :=
  λ w, match m (get w) with (r, p, t) => (r, set p w, t) end.

(** Running a computation of a separate object: the settlement comes back
    together with the object afterwards. *)
Definition on_object {Obj Other A : Type} (o : Other) (m : Async Other A)
  : Async Obj (Settled A * Other) :=
  λ s, match m o with (r, o', t) => (Resolved (r, o'), s, t) end.

(** ** PumpManager *)

Module PumpManager.

(** Modelled from the spec: pumpManager.ts is not among the sources.  The
    manager keeps the options the processor gave it and the index of the
    live pumps by partition id. *)
Record t : Type := {
  _eventProcessorName : string;
  _options : EventProcessorOptions;
  _partitionIdToPumps : gmap string PartitionPump.t
}.

Definition set_pumps (pumps : gmap string PartitionPump.t) (m : t) : t :=
  {| _eventProcessorName := _eventProcessorName m;
     _options := _options m;
     _partitionIdToPumps := pumps |}.

(** Modelled from the spec: pumpManager.ts is not among the sources.
    [new PumpManager(eventProcessorName, options)], as the constructor of
    [EventProcessor] calls it. *)
Definition new (eventProcessorName : string)
    (options : EventProcessorOptions) : t :=
  {| _eventProcessorName := eventProcessorName;
     _options := options;
     _partitionIdToPumps := ∅ |}.

(** The answers to the calls [createPump] awaits. *)
Record Creating : Type := {
  replaced : PartitionPump.Closing;
  starting : PartitionPump.Starting
}.

Section Handover.
(** Modelled from the spec: pumpManager.ts is not among the sources.
    [createPump] receives a start position, while the constructor of
    [PartitionPump] takes only options; [handover own position] stands
    for the options [createPump] gives the constructor, whatever way it
    derives them from the manager's own options and the position. *)
Variable handover :
  EventProcessorOptions → EventPosition → EventProcessorOptions.

(** Modelled from the spec: pumpManager.ts is not among the sources.
    "Constructs a pump, starts it, stores it under partitionId.  If a
    pump already exists for that partition, the new one replaces it
    only after the old one's stop(Shutdown) completes." *)
Definition createPump (partitionContext : PartitionContext)
    (startPosition : EventPosition) (handler : PartitionProcessor)
    (env : Creating) : Async t unit :=
  let pid := pc_partitionId partitionContext in
  pumps ← gets _partitionIdToPumps;
  (match pumps !! pid with
   | Some old =>
       '(r, old') ←
         on_object old (PartitionPump.stop (replaced env) Shutdown);
       modify (set_pumps (<[pid := old']> pumps));;
       settle r
   | None => mret tt
   end);;
  options ← gets _options;
  let pump :=
    PartitionPump.new partitionContext handler
      (Some (handover options startPosition)) in
  '(r, pump') ← on_object pump (PartitionPump.start (starting env));
  settle r;;
  pumps ← gets _partitionIdToPumps;
  modify (set_pumps (<[pid := pump']> pumps)).
End Handover.

(** Modelled from the spec: pumpManager.ts is not among the sources.
    Stopping the pumps of a list one after the other; the first rejection,
    if any, is the one reported. *)
Fixpoint stop_each (closing : string → PartitionPump.Closing)
    (reason : CloseReason) (pumps : list (string * PartitionPump.t))
  : Async t (Settled unit) :=
  match pumps with
  | [] => mret (Resolved tt)
  | (pid, pump) :: rest =>
      '(r, _) ← on_object pump (PartitionPump.stop (closing pid) reason);
      others ← stop_each closing reason rest;
      mret (match r with
            | Resolved _ => others
            | Rejected e => Rejected e
            end)
  end.

(** Modelled from the spec: pumpManager.ts is not among the sources.
    "Stops all in parallel; returns when all are closed."  Every pump of
    the index is stopped, the index is emptied, and a rejected [stop]
    rejects the call.  The interleaving of the parallel stops is not
    modelled: they run in the order of the index. *)
Definition removeAllPumps (closing : string → PartitionPump.Closing)
    (reason : CloseReason) : Async t unit :=
  pumps ← gets _partitionIdToPumps;
  r ← stop_each closing reason (map_to_list pumps);
  modify (set_pumps ∅);;
  settle r.

End PumpManager.

(** ** EventProcessor (eventProcessor.ts) *)

Module EventProcessor.

(** The fields of the processor.  The partition manager, the user's
    factory and the load balancer are collaborators: the calls on them are
    recorded, and their answers come from the environment. *)
Record t : Type := {
  _consumerGroupName : string;
  (* [_eventHubClient.eventHubName]; the client itself is the broker *)
  _eventHubName : string;
  _processorOptions : EventProcessorOptions;
  _pumpManager : PumpManager.t;
  _id : string;
  _isRunning : bool;
  (* the promise returned by [_runLoop], named by the signal it watches *)
  _loopTask : option nat;
  (* a reference into [controllers] *)
  _abortController : option nat;
  (* every [AbortController] created so far: whether it was aborted *)
  controllers : list bool
}.

Definition set_pumpManager (m : PumpManager.t) (p : t) : t :=
  {| _consumerGroupName := _consumerGroupName p;
     _eventHubName := _eventHubName p;
     _processorOptions := _processorOptions p;
     _pumpManager := m;
     _id := _id p;
     _isRunning := _isRunning p;
     _loopTask := _loopTask p;
     _abortController := _abortController p;
     controllers := controllers p |}.

Definition set_isRunning (b : bool) (p : t) : t :=
  {| _consumerGroupName := _consumerGroupName p;
     _eventHubName := _eventHubName p;
     _processorOptions := _processorOptions p;
     _pumpManager := _pumpManager p;
     _id := _id p;
     _isRunning := b;
     _loopTask := _loopTask p;
     _abortController := _abortController p;
     controllers := controllers p |}.

Definition set_loopTask (task : option nat) (p : t) : t :=
  {| _consumerGroupName := _consumerGroupName p;
     _eventHubName := _eventHubName p;
     _processorOptions := _processorOptions p;
     _pumpManager := _pumpManager p;
     _id := _id p;
     _isRunning := _isRunning p;
     _loopTask := task;
     _abortController := _abortController p;
     controllers := controllers p |}.

(** [this._abortController = new AbortController()] *)
Definition new_controller (p : t) : t :=
  {| _consumerGroupName := _consumerGroupName p;
     _eventHubName := _eventHubName p;
     _processorOptions := _processorOptions p;
     _pumpManager := _pumpManager p;
     _id := _id p;
     _isRunning := _isRunning p;
     _loopTask := _loopTask p;
     _abortController := Some (length (controllers p));
     controllers := controllers p ++ [false] |}.

(** [controller.abort()] *)
Definition abort (controller : nat) (p : t) : t :=
  {| _consumerGroupName := _consumerGroupName p;
     _eventHubName := _eventHubName p;
     _processorOptions := _processorOptions p;
     _pumpManager := _pumpManager p;
     _id := _id p;
     _isRunning := _isRunning p;
     _loopTask := _loopTask p;
     _abortController := _abortController p;
     controllers := <[controller := true]> (controllers p) |}.

(** [signal.aborted] *)
Definition aborted (signal : nat) (p : t) : bool :=
  default false (controllers p !! signal).

(** The constructor; [id] is the fresh [uuid()]. *)
Definition new (id consumerGroupName eventHubName : string)
    (options : option EventProcessorOptions) : t :=
  let options := or_object options PartitionPump.no_options in
  {| _consumerGroupName := consumerGroupName;
     _eventHubName := eventHubName;
     _processorOptions := options;
     _pumpManager := PumpManager.new id options;
     _id := id;
     _isRunning := false;
     _loopTask := None;
     _abortController := None;
     controllers := [] |}.

(** What another task can do to the processor while the control loop is
    suspended: call [stop], which aborts the current controller and
    clears [_isRunning] before it suspends for the first time. *)
Definition stop_called (p : t) : t :=
  set_isRunning false
    (match _abortController p with
     | Some controller => abort controller p
     | None => p
     end).

Definition _createPartitionOwnershipRequest
    (partitionOwnershipMap : gmap string PartitionOwnership)
    (partitionIdToClaim : string) (p : t) : PartitionOwnership :=
  let previousPartitionOwnership :=
    partitionOwnershipMap !! partitionIdToClaim in
  {| ownerId := _id p;
     partitionId := partitionIdToClaim;
     consumerGroupName := _consumerGroupName p;
     eventHubName := _eventHubName p;
     sequenceNumber := previousPartitionOwnership ≫= sequenceNumber;
     offset := previousPartitionOwnership ≫= offset;
     eTag := previousPartitionOwnership ≫= eTag;
     lastModifiedTimeInMS := None;
     ownerLevel := 0 |}.

(** [ownershipRequest.sequenceNumber
       ? EventPosition.fromSequenceNumber(ownershipRequest.sequenceNumber)
       : this._processorOptions.initialEventPosition
         || EventPosition.earliest()];
    the test is the truthiness of an optional number. *)
Definition eventPosition (ownershipRequest : PartitionOwnership)
    (options : EventProcessorOptions) : EventPosition :=
  let otherwise := or_object (initialEventPosition options) earliest in
  match sequenceNumber ownershipRequest with
  | Some n => if n =? 0 then otherwise else fromSequenceNumber n
  | None => otherwise
  end.

(** The answers to the calls [_claimOwnership] makes. *)
Record Claiming : Type := {
  claimOwnership : Awaited (list PartitionOwnership);
  factory : Settled PartitionProcessor;
  creating : PumpManager.Creating;
  stopped_while_creating : bool
}.

(** The answers to the calls one turn of the control loop makes.
    [loadBalance] belongs to [PartitionLoadBalancer], which picks at
    random and is not among the sources: its pick is an answer of the
    environment. *)
Record Tick : Type := {
  listOwnership : Awaited (list PartitionOwnership);
  getPartitionIds : Awaited (list string);
  loadBalance : Settled (option string);
  claiming : Claiming;
  delay : Awaited unit;
  (* the conversion to a string of the value the loop catches, if any *)
  error_text : Settled unit
}.

(** Truthiness of an optional string: [undefined] and [""] are falsy. *)
Definition truthy (value : option string) : option string :=
  match value with
  | Some ""%string | None => None
  | Some text => Some text
  end.

(** A claim of the loop task that awaits the store: the map and the
    partition [_claimOwnership] was called with, and the answers it gets. *)
Record InFlight : Type := {
  claimed_map : gmap string PartitionOwnership;
  claimed_partition : string;
  claim_answers : Claiming
}.

(** The answers to the calls [stop] awaits, and what the loop task does in
    the meantime. *)
Record Stopping : Type := {
  removing : string → PartitionPump.Closing;
  (* the claim the loop task has in flight when [stop] is called, if any *)
  in_flight : option InFlight;
  loop_task : Settled unit;
  (* the conversion to a string of the value [stop] catches, if any *)
  stop_error_text : Settled unit
}.

Section Handover.
Variable handover :
  EventProcessorOptions → EventPosition → EventProcessorOptions.

(** The [CheckpointManager] built for the factory is a plain object made
    of the context, the partition manager and the processor's id; building
    it calls nothing. *)
Definition _claimOwnership
    (partitionOwnershipMap : gmap string PartitionOwnership)
    (partitionIdToClaim : string) (env : Claiming) : Async t unit :=
  emit (Log log_partitionLoadBalancer
          "Attempting to claim ownership of partition." None);;
  ownershipRequest ←
    gets (_createPartitionOwnershipRequest partitionOwnershipMap
            partitionIdToClaim);
  try_catch
    (await (ClaimOwnership [ownershipRequest]) stop_called
       (claimOwnership env);;
     emit (Log log_partitionLoadBalancer
             "Successfully claimed ownership of partition." None);;
     group ← gets _consumerGroupName;
     hub ← gets _eventHubName;
     let partitionContext :=
       {| pc_consumerGroupName := group;
          pc_eventHubName := hub;
          pc_partitionId := partitionId ownershipRequest |} in
     emit (Log log_partitionLoadBalancer
             "Calling user-provided PartitionProcessorFactory." None);;
     emit (CallFactory partitionContext);;
     partitionProcessor ← settle (factory env);
     options ← gets _processorOptions;
     emit (CreatePump partitionContext
             (eventPosition ownershipRequest options));;
     zoom _pumpManager set_pumpManager
       (PumpManager.createPump handover partitionContext
          (eventPosition ownershipRequest options) partitionProcessor
          (creating env));;
     modify (if stopped_while_creating env then stop_called else id);;
     emit (Log log_partitionLoadBalancer
             "PartitionPump created successfully." None))
    (λ err,
       emit (Log log_error "Failed to claim ownership of partition" None)).

(** The body of the loop of [_runLoop].  The [catch] clause writes the
    caught value into the line it logs; when the value has no conversion
    to a string the clause throws, and so does the turn. *)
Definition tick (abortSignal : nat) (env : Tick) : Async t Flow :=
  try_catch
    (hub ← gets _eventHubName;
     group ← gets _consumerGroupName;
     partitionOwnership ←
       await (ListOwnership hub group) stop_called (listOwnership env);
     let partitionOwnershipMap : gmap string PartitionOwnership :=
       foldl (λ m ownership, <[partitionId ownership := ownership]> m)
         ∅ partitionOwnership in
     partitionIds ←
       await GetPartitionIds stop_called (getPartitionIds env);
     cancelled ← gets (aborted abortSignal);
     if (cancelled : bool) then mret returned
     else
       (if (0 <? length partitionIds)%nat then
          emit (LoadBalance partitionIds);;
          partitionToClaim ← settle (loadBalance env);
          match truthy partitionToClaim with
          | Some partitionToClaim =>
              _claimOwnership partitionOwnershipMap partitionToClaim
                (claiming env)
          | None => mret tt
          end
        else mret tt);;
       emit (Log log_eventProcessor
               "Pausing the EventProcessor loop for 10000 ms." None);;
       await (Delay 10000 abortSignal) stop_called (delay env);;
       mret next_turn)
    (λ err,
       settle (to_text (error_text env) err);;
       emit (Log log_error
               "An error occured within the EventProcessor loop: "
               (Some err));;
       mret next_turn).

(** [while (!abortSignal.aborted) { ... }], with one element of the script
    for every turn.  When the script is used up the next [listOwnership]
    has been called and has not settled. *)
Fixpoint _runLoop (abortSignal : nat) (script : list Tick)
  : Async t Standing :=
  cancelled ← gets (aborted abortSignal);
  if (cancelled : bool) then mret finished
  else
    match script with
    | [] =>
        hub ← gets _eventHubName;
        group ← gets _consumerGroupName;
        emit (ListOwnership hub group);;
        mret suspended
    | env :: rest =>
        flow ← tick abortSignal env;
        match flow with
        | returned => mret finished
        | next_turn => _runLoop abortSignal rest
        end
    end.

(** [start] is not [async]: it returns once the loop it launches is
    suspended on its first call, before any answer has arrived. *)
Definition start : Async t unit :=
  running ← gets _isRunning;
  if (running : bool) then
    emit (Log log_eventProcessor
            "Attempted to start an already running EventProcessor." None)
  else
    modify (set_isRunning true);;
    signal ← gets (λ p, length (controllers p));
    emit (NewAbortController signal);;
    modify new_controller;;
    emit (Log log_eventProcessor "Starting an EventProcessor." None);;
    emit (LaunchLoop signal);;
    detached (_runLoop signal []);;
    modify (set_loopTask (Some signal)).

(** What the loop task leaves in the processor while [stop] awaits it.
    The abort signal is tested before the claim and not after it, so a
    claim that awaits the store when [stop] is called goes on, once the
    store has answered, to the user's factory and to [createPump].  The
    calls are the loop task's own; [stop] finds the processor as they
    leave it.  Should the store answer while the pumps are still being
    removed, what becomes of the new pump is decided in pumpManager.ts,
    which is not among the sources; here the claim goes on after the
    removal. *)
Definition loop_task_finishes (claim : option InFlight) (p : t) : t :=
  match claim with
  | Some c =>
      after (_claimOwnership (claimed_map c) (claimed_partition c)
               (claim_answers c) p)
  | None => p
  end.

(** The [catch] clause writes the caught value into the line it logs, and
    throws when the value has no conversion to a string; the [finally]
    clause logs in every case. *)
Definition stop (env : Stopping) : Async t unit :=
  emit (Log log_eventProcessor "Stopping an EventProcessor." None);;
  controller ← gets _abortController;
  (match controller with
   | Some controller => emit (Abort controller);; modify (abort controller)
   | None => mret tt
   end);;
  modify (set_isRunning false);;
  try_finally
    (try_catch
       (emit (RemoveAllPumps Shutdown);;
        zoom _pumpManager set_pumpManager
          (PumpManager.removeAllPumps (removing env) Shutdown);;
        task ← gets _loopTask;
        match task with
        | Some task =>
            emit (AwaitLoopTask task);;
            modify (loop_task_finishes (in_flight env));;
            settle (loop_task env)
        | None => mret tt
        end)
       (λ err,
          settle (to_text (stop_error_text env) err);;
          emit (Log log_error
                  "An error occured while stopping the EventProcessor: "
                  (Some err))))
    (emit (Log log_eventProcessor "EventProcessor stopped." None)).
End Handover.

End EventProcessor.

(** ** Retry options (eventHubClient.ts) *)

Module Retry.

(** A JavaScript number: a finite value, an infinity or [NaN].  Only the
    order of finite values matters here; they are compared as rationals. *)
Inductive JsNumber : Type :=
| NaN
| PositiveInfinity
| NegativeInfinity
| Finite (value : QArith_base.Q).

(** What [typeof retryOptions.timeoutInMs] sees: no such property, a value
    of another type, or a number. *)
Inductive Field : Type :=
| absent
| not_a_number
| number (n : JsNumber).

(** The one property of [RetryOptions] that is read. *)
Record RetryOptions : Type := {
  timeoutInMs : Field
}.

(** The global [isFinite] on a number. *)
Definition isFinite (n : JsNumber) : bool :=
  match n with
  | Finite _ => true
  | NaN | PositiveInfinity | NegativeInfinity => false
  end.

(** [a < b] on numbers; every comparison with [NaN] is false. *)
Definition less_than (a b : JsNumber) : bool :=
  match a, b with
  | NaN, _ | _, NaN => false
  | Finite x, Finite y => negb (QArith_base.Qle_bool y x)
  | Finite _, PositiveInfinity => true
  | Finite _, NegativeInfinity => false
  | PositiveInfinity, _ => false
  | NegativeInfinity, NegativeInfinity => false
  | NegativeInfinity, _ => true
  end.

Section Constants.
(** [Constants.defaultOperationTimeoutInMs] of the AMQP core library, a
    finite number. *)
Variable defaultOperationTimeoutInMs : QArith_base.Q.

Definition getRetryAttemptTimeoutInMs (retryOptions : option RetryOptions)
  : JsNumber :=
  match retryOptions with
  | None => Finite defaultOperationTimeoutInMs
  | Some options =>
      match timeoutInMs options with
      | number n =>
          if negb (isFinite n) || less_than n (Finite defaultOperationTimeoutInMs)
          then Finite defaultOperationTimeoutInMs
          else n
      | absent | not_a_number => Finite defaultOperationTimeoutInMs
      end
  end.
End Constants.

End Retry.

(** ** The client and its senders (eventHubClient.ts, sender.ts) *)

(** The methods of the client and of a sender make other calls than the
    pump and the processor do.  A task is the same kind of computation as
    [Async], over any type of calls. *)
Module Task.

Definition t (Call Obj A : Type) : Type := Obj → Settled A * Obj * list Call.

Section Ops.
Context {Call Obj : Type}.

Definition ret {A : Type} (a : A) : t Call Obj A := λ s, (Resolved a, s, []).

Definition bind {A B : Type} (k : A → t Call Obj B) (m : t Call Obj A)
  : t Call Obj B :=
  λ s, match m s with
       | (Resolved a, s1, t1) =>
           match k a s1 with (r, s2, t2) => (r, s2, t1 ++ t2) end
       | (Rejected e, s1, t1) => (Rejected e, s1, t1)
       end.

Definition throw {A : Type} (e : JsValue) : t Call Obj A :=
  λ s, (Rejected e, s, []).

(** [try { m } catch (err) { handler err }] *)
Definition try_catch {A : Type} (m : t Call Obj A)
    (handler : JsValue → t Call Obj A) : t Call Obj A :=
  λ s, match m s with
       | (Rejected e, s1, t1) =>
           match handler e s1 with (r, s2, t2) => (r, s2, t1 ++ t2) end
       | ok => ok
       end.

Definition emit (c : Call) : t Call Obj unit := λ s, (Resolved tt, s, [c]).

Definition gets {A : Type} (f : Obj → A) : t Call Obj A :=
  λ s, (Resolved (f s), s, []).

Definition modify (f : Obj → Obj) : t Call Obj unit :=
  λ s, (Resolved tt, f s, []).

Definition settle {A : Type} (r : Settled A) : t Call Obj A :=
  λ s, (r, s, []).

(** [await call]: the call is made and settles the way the environment
    says.  None of the methods below reads a field after an [await], so
    what other tasks do in the meantime is not part of the answer. *)
Definition await {A : Type} (call : Call) (answer : Settled A) : t Call Obj A :=
  bind (λ _, settle answer) (emit call).
End Ops.

End Task.

(** The fields of the connection context that the methods below write.
    The context is one object, shared by the client and all the senders
    it creates; its dictionaries of links are read through the
    environment. *)
Record ConnectionContext : Type := {
  wasConnectionCloseCalled : bool
}.

Definition set_wasConnectionCloseCalled (b : bool) (c : ConnectionContext)
  : ConnectionContext :=
  {| wasConnectionCloseCalled := b |}.

Module EventHubClient.

(** The runtime information of an Event Hub, as far as the client reads
    it. *)
Record EventHubProperties : Type := {
  partitionIds : list string
}.

Inductive Call : Type :=
| log_error_line (message : string) (detail : option JsValue)
| log_client_line (message : string)
| getHubRuntimeInformation
| sender_close (name : string)
| receiver_close (name : string)
| cbsSession_close
| managementSession_close
| connection_close.

(** What the environment answers while [close] runs. *)
Record Closing : Type := {
  isOpen : bool;                           (* connection.isOpen() *)
  senderNames : list string;               (* Object.keys(context.senders) *)
  sender_closes : string → Settled unit;
  receiverNames : list string;             (* Object.keys(context.receivers) *)
  receiver_closes : string → Settled unit;
  cbsSession_closes : Settled unit;
  managementSession_closes : Settled unit;
  connection_closes : Settled unit
}.

Section Client.
(** [throwErrorIfConnectionClosed] of util/error.ts, which is not among
    the sources: it reads the context and returns or throws. *)
Variable throwErrorIfConnectionClosed : ConnectionContext → Settled unit.
(** [err instanceof Error] and [JSON.stringify(err)]; the latter answers a
    string or [undefined], or throws. *)
Variable instanceof_Error : JsValue → bool.
Variable JSON_stringify : JsValue → Settled JsValue.

#[local] Instance client_ret : MRet (Task.t Call ConnectionContext) :=
  @Task.ret Call ConnectionContext.
#[local] Instance client_bind : MBind (Task.t Call ConnectionContext) :=
  @Task.bind Call ConnectionContext.

(** [for (const name of names) { await links[name].close(); }] *)
Fixpoint close_each (call : string → Call) (answer : string → Settled unit)
    (names : list string) : Task.t Call ConnectionContext unit :=
  match names with
  | [] => Task.ret tt
  | name :: rest =>
      Task.await (call name) (answer name);;
      close_each call answer rest
  end.

(** [err instanceof Error ? err : JSON.stringify(err)] *)
Definition as_error_or_text (err : JsValue) : Settled JsValue :=
  if instanceof_Error err then Resolved err else JSON_stringify err.

(** Converting an [Error] to text in the template of the log line is taken
    not to throw. *)
Definition close (env : Closing) : Task.t Call ConnectionContext unit :=
  Task.try_catch
    (if isOpen env then
       close_each sender_close (sender_closes env) (senderNames env);;
       close_each receiver_close (receiver_closes env) (receiverNames env);;
       Task.await cbsSession_close (cbsSession_closes env);;
       Task.await managementSession_close (managementSession_closes env);;
       Task.await connection_close (connection_closes env);;
       Task.modify (set_wasConnectionCloseCalled true);;
       Task.emit (log_client_line "Closed the amqp connection '%s' on the client.")
     else Task.ret tt)
    (λ err,
       err ← Task.settle (as_error_or_text err);
       Task.emit (log_error_line "An error occurred while closing the connection"
                    (Some err));;
       Task.throw err).

Definition getProperties (answer : Settled EventHubProperties)
  : Task.t Call ConnectionContext EventHubProperties :=
  context ← Task.gets id;
  Task.settle (throwErrorIfConnectionClosed context);;
  Task.try_catch
    (Task.await getHubRuntimeInformation answer)
    (λ err,
       Task.emit (log_error_line
                    "An error occurred while getting the hub runtime information: %O"
                    (Some err));;
       Task.throw err).

Definition getPartitionIds (answer : Settled EventHubProperties)
  : Task.t Call ConnectionContext (list string) :=
  context ← Task.gets id;
  Task.settle (throwErrorIfConnectionClosed context);;
  Task.try_catch
    (runtimeInfo ← getProperties answer;
     Task.ret (partitionIds runtimeInfo))
    (λ err,
       Task.emit (log_error_line
                    "An error occurred while getting the partition ids: %O"
                    (Some err));;
       Task.throw err).
End Client.

End EventHubClient.

Module Sender.

(** An options object: its own properties and their values. *)
Abbreviation Options := (gmap string JsValue) (only parsing).

(** The fields of a sender.  [_context] is a reference to the context of
    the client; the record holds the contents of that object when a method
    runs. *)
Record t : Type := {
  _context : ConnectionContext;
  _isClosed : bool;
  _requestOptions : Options
}.

Definition set_isClosed (b : bool) (s : t) : t :=
  {| _context := _context s; _isClosed := b;
     _requestOptions := _requestOptions s |}.

(** [new Sender(context, partitionId, options)]: [options || {}]. *)
Definition new (context : ConnectionContext) (options : option Options) : t :=
  {| _context := context; _isClosed := false;
     _requestOptions := or_object options ∅ |}.

Inductive Call (EventData : Type) : Type :=
| log_error_line (message : string) (detail : option JsValue)
| link_send (events : list EventData) (options : Options)
| link_close.
Arguments log_error_line {EventData} message detail.
Arguments link_send {EventData} events options.
Arguments link_close {EventData}.

(** The first argument of [send] is declared an array; the code also
    accepts a single event. *)
Inductive Events (EventData : Type) : Type :=
| single (event : EventData)
| array (events : list EventData).
Arguments single {EventData} event.
Arguments array {EventData} events.

(** What the environment answers while [close] runs. *)
Record Closing : Type := {
  connection : option bool;   (* the connection, and what isOpen() answers *)
  registered : bool;          (* context.senders[this._eventHubSender.name] *)
  link_closes : Settled unit
}.

(** The [Error] that a closed sender throws. *)
Definition sender_closed_error : JsValue := JsObject (Some "Error"%string) false.

Section Sender.
Context {EventData : Type}.
(** [throwErrorIfConnectionClosed] of util/error.ts, as for the client. *)
Variable throwErrorIfConnectionClosed : ConnectionContext → Settled unit.

#[local] Instance sender_ret : MRet (Task.t (Call EventData) t) :=
  @Task.ret (Call EventData) t.
#[local] Instance sender_bind : MBind (Task.t (Call EventData) t) :=
  @Task.bind (Call EventData) t.

Definition _throwIfSenderOrConnectionClosed : Task.t (Call EventData) t unit :=
  context ← Task.gets _context;
  Task.settle (throwErrorIfConnectionClosed context);;
  isClosed ← Task.gets _isClosed;
  if (isClosed : bool) then
    Task.emit (log_error_line "[%s] %O" (Some sender_closed_error));;
    Task.throw sender_closed_error
  else Task.ret tt.

(** [Array.isArray(events) ? events : [events]] *)
Definition as_array (events : Events EventData) : list EventData :=
  match events with
  | single event => [event]
  | array events => events
  end.

(** [{ ...this._requestOptions, ...options }]: a property of [options]
    takes the place of the sender's own. *)
Definition spread (requestOptions : Options) (options : option Options)
  : Options :=
  or_object options ∅ ∪ requestOptions.

Definition send (events : Events EventData) (options : option Options)
    (answer : Settled unit) : Task.t (Call EventData) t unit :=
  _throwIfSenderOrConnectionClosed;;
  requestOptions ← Task.gets _requestOptions;
  Task.await (link_send (as_array events) (spread requestOptions options)) answer.

Definition close (env : Closing) : Task.t (Call EventData) t unit :=
  Task.try_catch
    ((if bool_decide (connection env = Some true) && registered env
      then Task.await link_close (link_closes env)
      else Task.ret tt);;
     Task.modify (set_isClosed true))
    (λ err,
       Task.emit (log_error_line
                    "[%s] An error occurred while closing the Sender for %s: %O"
                    (Some err));;
       Task.throw err).
End Sender.

End Sender.

(** * Observations and scenarios *)

(** ** The partition pump *)

Section PumpScenarios.
Import PartitionPump.

(** The [receiveBatch] call of a pump, with the arguments the loop gives
    it. *)
Definition receive_call (p : t) : Event :=
  ReceiveBatch (partition p)
    (or_number (maxBatchSize (_processorOptions p)) 1)
    (maxWaitTimeInSeconds (_processorOptions p)).

(** What is logged when the user's [processError] itself throws. *)
Definition swallowed (answer : Awaited unit) : list Event :=
  match settles answer with
  | Resolved _ => []
  | Rejected e =>
      [Log log_error "An error was thrown by user's processError method: "
         (Some e)]
  end.

(** The pump as another task may have left it during an await. *)
Definition meanwhile {A : Type} (answer : Awaited A) (p : t) : t :=
  if interfered answer then stop_called p else p.

(** The close reason the loop picks for an error object that is not
    retryable. *)
Definition reason_for (name : option string) : CloseReason :=
  if bool_decide (name = Some "ReceiverDisconnectedError"%string)
  then OwnershipLost
  else EventHubException.

Definition partition0 : PartitionContext :=
  {| pc_consumerGroupName := "$Default";
     pc_eventHubName := "hub";
     pc_partitionId := "0" |}.

Definition full_handler : PartitionProcessor :=
  {| initialize_defined := true; close_defined := true |}.

Definition consumer0 : EventHubConsumer :=
  {| c_consumerGroup := "$Default";
     c_partitionId := "0";
     c_eventPosition := earliest;
     c_ownerLevel := 0 |}.

(** A pump in the middle of its receive loop. *)
Definition running_pump : t :=
  set_isReceiving true
    (set_receiver (Some consumer0) (new partition0 full_handler None)).

Definition quiet_closing : Closing :=
  {| receiver_close := Resolved tt; user_close := Resolved tt |}.

Definition event0 : ReceivedEventData :=
  {| body := "hello"; ev_offset := 0; ev_sequenceNumber := 0;
     enqueuedTimeUtc := 0 |}.

(** A turn in which [receiveBatch] rejects and everything else goes well. *)
Definition failing_receive (err : JsValue) : Turn :=
  {| receiveBatch := undisturbed (Rejected err);
     processEvents := undisturbed (Resolved tt);
     processError := undisturbed (Resolved tt);
     closing := quiet_closing |}.

(** A turn during whose [receiveBatch] another task calls [stop]. *)
Definition stopped_receive (answer : Settled (list ReceivedEventData)) : Turn :=
  {| receiveBatch := {| settles := answer; interfered := true |};
     processEvents := undisturbed (Resolved tt);
     processError := undisturbed (Resolved tt);
     closing := quiet_closing |}.

(** A turn in which a batch arrives and the user's [processEvents] throws an
    error object. *)
Record Throw : Type := {
  batch : list ReceivedEventData;
  thrown_name : option string;
  thrown_retryable : bool;
  error_reply : Settled unit;
  on_close : Closing
}.

Definition thrown (th : Throw) : JsValue :=
  JsObject (thrown_name th) (thrown_retryable th).

Definition throwing (th : Throw) : Turn :=
  {| receiveBatch := undisturbed (Resolved (batch th));
     processEvents := undisturbed (Rejected (thrown th));
     processError := undisturbed (error_reply th);
     closing := on_close th |}.

(** The calls of a turn whose [processEvents] throws, up to the report to
    [processError]. *)
Definition routed (p : t) (th : Throw) : list Event :=
  [receive_call p; CallProcessEvents (partition p) (batch th);
   CallProcessError (partition p) (thrown th)]
  ++ swallowed (undisturbed (error_reply th)).

Definition plain_error : Throw :=
  {| batch := [event0];
     thrown_name := Some "Error"%string;
     thrown_retryable := false;
     error_reply := Resolved tt;
     on_close := quiet_closing |}.

Definition busy_error : Throw :=
  {| batch := [event0];
     thrown_name := Some "ServerBusyError"%string;
     thrown_retryable := true;
     error_reply := Rejected (JsPrimitive "handler failed");
     on_close := quiet_closing |}.

(** The calls of the loop's own [stop], with the line the loop logs when
    that [stop] rejects. *)
Definition shutdown_calls (env : Closing) (name : option string) (p : t)
  : list Event :=
  match stop env (reason_for name) p with
  | (Resolved _, _, t2) => t2
  | (Rejected e, _, t2) =>
      t2 ++
        [Log log_error
           "An error occurred while closing the receiver with reason EventHubException: "
           (Some e)]
  end.

(** A handler whose [close] throws. *)
Definition failing_close : Closing :=
  {| receiver_close := Resolved tt;
     user_close := Rejected (JsObject (Some "Error"%string) false) |}.

(** The reader's [close], called when a reader was created. *)
Definition reader_closed (p : t) : list Event :=
  if _receiver p is Some _ then [CloseReceiver (partition p)] else [].

(** The user's [close], called when the handler defines it. *)
Definition handler_closed (reason : CloseReason) (p : t) : list Event :=
  if close_defined (_partitionProcessor p)
  then [CallClose (partition p) reason]
  else [].

(** The calls of [start] before it launches the receive loop. *)
Definition initialized (p : t) : list Event :=
  if initialize_defined (_partitionProcessor p)
  then [CallInitialize (partition p)]
  else [].

End PumpScenarios.

(** ** The event processor *)

(** Two ways [PumpManager.createPump] can build the options of the pump:
    with the manager's own options, unchanged, or with the start position
    written into them. *)
Definition own_options (own : EventProcessorOptions) (position : EventPosition)
  : EventProcessorOptions := own.

Definition position_in_options (own : EventProcessorOptions)
    (position : EventPosition) : EventProcessorOptions :=
  {| initialEventPosition := Some position;
     maxBatchSize := maxBatchSize own;
     maxWaitTimeInSeconds := maxWaitTimeInSeconds own |}.

Definition options_from (position : option EventPosition)
  : EventProcessorOptions :=
  {| initialEventPosition := position;
     maxBatchSize := None;
     maxWaitTimeInSeconds := None |}.

(** A processor that was constructed and not started. *)
Definition fresh_processor (position : option EventPosition)
  : EventProcessor.t :=
  EventProcessor.new "me" "$Default" "hub" (Some (options_from position)).

(** The record another processor left for partition "1", with its last
    checkpoint. *)
Definition checkpointed (checkpoint : option Z) : PartitionOwnership :=
  {| eventHubName := "hub";
     consumerGroupName := "$Default";
     ownerId := "other";
     partitionId := "1";
     ownerLevel := 0;
     offset := Some 4096;
     sequenceNumber := checkpoint;
     lastModifiedTimeInMS := Some 1000;
     eTag := Some "E1"%string |}.

(** The request the processor writes for partition "1". *)
Definition request1 (previous : option PartitionOwnership)
  : PartitionOwnership :=
  {| eventHubName := "hub";
     consumerGroupName := "$Default";
     ownerId := "me";
     partitionId := "1";
     ownerLevel := 0;
     offset := previous ≫= offset;
     sequenceNumber := previous ≫= sequenceNumber;
     lastModifiedTimeInMS := None;
     eTag := previous ≫= eTag |}.

Definition partition1 : PartitionContext :=
  {| pc_consumerGroupName := "$Default";
     pc_eventHubName := "hub";
     pc_partitionId := "1" |}.

(** A new pump whose [initialize] goes well and whose first [receiveBatch]
    has not settled. *)
Definition quiet_start : PartitionPump.Starting :=
  {| PartitionPump.initialize := undisturbed (Resolved tt);
     PartitionPump.receiving :=
       {| PartitionPump.createConsumer := Resolved tt;
          PartitionPump.script := [] |} |}.

(** A claim in which the store answers [answer] and everything else goes
    well. *)
Definition claim_answered (answer : Settled (list PartitionOwnership))
  : EventProcessor.Claiming :=
  {| EventProcessor.claimOwnership := undisturbed answer;
     EventProcessor.factory := Resolved full_handler;
     EventProcessor.creating :=
       {| PumpManager.replaced := quiet_closing;
          PumpManager.starting := quiet_start |};
     EventProcessor.stopped_while_creating := false |}.

(** The positions at which readers were opened, in order. *)
Definition opened_at (trace : list Event) : list EventPosition :=
  omap (λ e, match e with
             | CreateConsumer _ _ position _ => Some position
             | _ => None
             end) trace.

Section ProcessorScenarios.
Import EventProcessor.

(** The same answers, with another settlement of [claimOwnership]. *)
Definition with_answer (env : Claiming)
    (answer : Settled (list PartitionOwnership)) : Claiming :=
  {| claimOwnership :=
       {| settles := answer; interfered := interfered (claimOwnership env) |};
     factory := factory env;
     creating := creating env;
     stopped_while_creating := stopped_while_creating env |}.

(** The processor as [stop], called by another task, may have left it
    during an await. *)
Definition disturbed {A : Type} (answer : Awaited A) (p : t) : t :=
  if interfered answer then stop_called p else p.

(** The result of a computation, with calls that were made before it. *)
Definition prefixed {A : Type} (before : list Event)
    (r : Settled A * t * list Event) : Settled A * t * list Event :=
  (outcome r, after r, before ++ calls r).


Definition loop_error (e : JsValue) : Event :=
  Log log_error "An error occured within the EventProcessor loop: " (Some e).

Definition pausing : Event :=
  Log log_eventProcessor "Pausing the EventProcessor loop for 10000 ms." None.

(** The map the loop builds from the answer of [listOwnership]. *)
Definition ownership_map (owned : list PartitionOwnership)
  : gmap string PartitionOwnership :=
  foldl (λ m ownership, <[partitionId ownership := ownership]> m) ∅ owned.

(** What the loop logs when the pause between two turns is cut short by an
    error. *)
Definition delay_error (answer : Awaited unit) : list Event :=
  match settles answer with
  | Resolved _ => []
  | Rejected e => [loop_error e]
  end.

Definition claim_failed : Event :=
  Log log_error "Failed to claim ownership of partition" None.


(** The same for the error that cuts the pause short, if any. *)
Definition pause_legible (env : Tick) : Prop :=
  ∀ e, settles (delay env) = Rejected e →
       to_text (error_text env) e = Resolved tt.


(** Four turns, each with one fault, and no other task at work: the store
    fails to list, the broker fails to list, the store refuses the claim,
    and the pause is cut short. *)
Definition quiet_tick : Tick :=
  {| listOwnership := undisturbed (Resolved [checkpointed (Some 42)]);
     getPartitionIds := undisturbed (Resolved ["0"; "1"]%string);
     loadBalance := Resolved (Some "1"%string);
     claiming := claim_answered (Resolved []);
     delay := undisturbed (Resolved tt);
     error_text := Resolved tt |}.

Definition store_down : JsValue := JsObject (Some "ServiceUnavailable"%string) true.



(** A processor after [start]: its loop watches controller 0. *)
Definition started_processor : t := after (start own_options (fresh_processor None)).

(** The line [stop] logs for an error raised during shutdown. *)
Definition stop_error (e : JsValue) : Event :=
  Log log_error "An error occured while stopping the EventProcessor: "
    (Some e).

(** The calls with which [stop] cancels the loop and waits for it. *)
Definition aborting (p : t) : list Event :=
  match _abortController p with
  | Some controller => [Abort controller]
  | None => []
  end.


(** The await of the loop task, which [stop] reaches when the removal of
    the pumps has not failed and there is a loop task. *)
Definition awaited (removal : Settled unit) (p : t) : list Event :=
  match removal, _loopTask p with
  | Resolved _, Some task => [AwaitLoopTask task]
  | _, _ => []
  end.

(** The value raised during shutdown, if any: by the removal of the
    pumps, or else by the loop task. *)
Definition shutdown_failure (removal : Settled unit) (env : Stopping) (p : t)
  : option JsValue :=
  match removal with
  | Rejected e => Some e
  | Resolved _ =>
      match _loopTask p, loop_task env with
      | Some _, Rejected e => Some e
      | _, _ => None
      end
  end.

(** What the [catch] clause of [stop] makes of it: the promise of [stop]
    resolves once the value is logged, and rejects when the value has no
    conversion to a string. *)
Definition stop_settles (env : Stopping) (failure : option JsValue)
  : Settled unit :=
  match failure with
  | Some e => to_text (stop_error_text env) e
  | None => Resolved tt
  end.

Definition stop_logs (env : Stopping) (failure : option JsValue)
  : list Event :=
  match failure with
  | Some e =>
      match to_text (stop_error_text env) e with
      | Resolved _ => [stop_error e]
      | Rejected _ => []
      end
  | None => []
  end.




End ProcessorScenarios.

(** ** Further observations *)

(** The result of a pump's computation, with calls that were made before
    it. *)
Definition prefixed_pump {A : Type} (before : list Event)
    (r : Settled A * PartitionPump.t * list Event)
  : Settled A * PartitionPump.t * list Event :=
  (outcome r, after r, before ++ calls r).

(** A turn in which a batch arrives and the user's [processEvents] throws
    [value]; [processError] and the closing go well. *)
Definition throwing_value (value : JsValue) : PartitionPump.Turn :=
  {| PartitionPump.receiveBatch := undisturbed (Resolved [event0]);
     PartitionPump.processEvents := undisturbed (Rejected value);
     PartitionPump.processError := undisturbed (Resolved tt);
     PartitionPump.closing := quiet_closing |}.

(** The answers to [start] when [createConsumer] throws [e]. *)
Definition no_consumer (e : JsValue) : PartitionPump.Starting :=
  {| PartitionPump.initialize := undisturbed (Resolved tt);
     PartitionPump.receiving :=
       {| PartitionPump.createConsumer := Rejected e;
          PartitionPump.script := [failing_receive JsNull] |} |}.

(** Two more records of a listing: an older one for partition "1" and one
    for partition "2". *)
Definition stale_record : PartitionOwnership :=
  {| eventHubName := "hub";
     consumerGroupName := "$Default";
     ownerId := "gone";
     partitionId := "1";
     ownerLevel := 0;
     offset := None;
     sequenceNumber := None;
     lastModifiedTimeInMS := Some 10;
     eTag := Some "E0"%string |}.

Definition other_partition_record : PartitionOwnership :=
  {| eventHubName := "hub";
     consumerGroupName := "$Default";
     ownerId := "other";
     partitionId := "2";
     ownerLevel := 0;
     offset := Some 8;
     sequenceNumber := Some 3;
     lastModifiedTimeInMS := Some 1000;
     eTag := Some "E9"%string |}.

(** A turn in which the Event Hub reports no partition. *)
Definition no_partitions_tick : EventProcessor.Tick :=
  {| EventProcessor.listOwnership := undisturbed (Resolved []);
     EventProcessor.getPartitionIds := undisturbed (Resolved []);
     EventProcessor.loadBalance := EventProcessor.loadBalance quiet_tick;
     EventProcessor.claiming := EventProcessor.claiming quiet_tick;
     EventProcessor.delay := undisturbed (Resolved tt);
     EventProcessor.error_text := Resolved tt |}.

(** A turn during whose [listOwnership] another task calls [stop]. *)
Definition stopped_while_listing : EventProcessor.Tick :=
  {| EventProcessor.listOwnership :=
       {| settles := Resolved [checkpointed (Some 42)]; interfered := true |};
     EventProcessor.getPartitionIds :=
       EventProcessor.getPartitionIds quiet_tick;
     EventProcessor.loadBalance := EventProcessor.loadBalance quiet_tick;
     EventProcessor.claiming := EventProcessor.claiming quiet_tick;
     EventProcessor.delay := EventProcessor.delay quiet_tick;
     EventProcessor.error_text := Resolved tt |}.

(** A [stop] whose awaits all go well. *)
Definition quiet_stop : EventProcessor.Stopping :=
  {| EventProcessor.removing := λ _, quiet_closing;
     EventProcessor.in_flight := None;
     EventProcessor.loop_task := Resolved tt;
     EventProcessor.stop_error_text := Resolved tt |}.

(** A claim the store grants and for which the user's factory throws. *)
Definition factory_throws : EventProcessor.Claiming :=
  {| EventProcessor.claimOwnership := undisturbed (Resolved [request1 None]);
     EventProcessor.factory := Rejected (JsObject (Some "Error"%string) false);
     EventProcessor.creating :=
       EventProcessor.creating (claim_answered (Resolved []));
     EventProcessor.stopped_while_creating := false |}.

(** ** Scenarios of the client and the senders *)

(** A default timeout of one minute. *)
Definition one_minute : QArith_base.Q := QArith_base.Qmake 60000 1.

Definition half_minute : QArith_base.Q := QArith_base.Qmake 30000 1.

Definition two_minutes : QArith_base.Q := QArith_base.Qmake 120000 1.

(** A check of the connection that throws once [close] was called on it. *)
Definition closed_check (context : ConnectionContext) : Settled unit :=
  if wasConnectionCloseCalled context
  then Rejected (JsObject (Some "Error"%string) false)
  else Resolved tt.

(** Objects are taken for errors; other values are turned into text. *)
Definition object_is_error (v : JsValue) : bool :=
  match v with
  | JsObject _ _ => true
  | JsUndefined | JsNull | JsPrimitive _ => false
  end.

Definition stringified (v : JsValue) : Settled JsValue :=
  match v with
  | JsUndefined => Resolved JsUndefined
  | JsNull => Resolved (JsPrimitive "null")
  | JsPrimitive text => Resolved (JsPrimitive text)
  | JsObject _ _ => Resolved (JsPrimitive "{}")
  end.

Definition open_context : ConnectionContext :=
  {| wasConnectionCloseCalled := false |}.

(** A client with senders "s1" and "s2" and receiver "r1" on an open
    connection; the link of "s2" answers [answer], all else closes well. *)
Definition closing_client (open : bool) (answer : Settled unit)
  : EventHubClient.Closing :=
  {| EventHubClient.isOpen := open;
     EventHubClient.senderNames := ["s1"; "s2"; "s3"]%string;
     EventHubClient.sender_closes :=
       λ name, if bool_decide (name = "s2"%string) then answer else Resolved tt;
     EventHubClient.receiverNames := ["r1"]%string;
     EventHubClient.receiver_closes := λ _, Resolved tt;
     EventHubClient.cbsSession_closes := Resolved tt;
     EventHubClient.managementSession_closes := Resolved tt;
     EventHubClient.connection_closes := Resolved tt |}.

Definition two_partitions : EventHubClient.EventHubProperties :=
  {| EventHubClient.partitionIds := ["0"; "1"]%string |}.

(** A sender that was just created, with a partition key among its
    options. *)
Definition fresh_sender : Sender.t :=
  Sender.new open_context (Some {[ "partitionKey"%string := JsPrimitive "a" ]}).

(** The link of the sender is registered on an open connection and answers
    [answer] to [close]. *)
Definition closing_sender (answer : Settled unit) : Sender.Closing :=
  {| Sender.connection := Some true;
     Sender.registered := true;
     Sender.link_closes := answer |}.

(** * Properties *)

Ltac unfold_async :=
  unfold mbind, mret, Async_bind, Async_ret, bind, ret, try_catch, await,
    emit, gets, modify, settle, throw, detached, try_finally, zoom, on_object,
    outcome, after, calls in *.

(** ** The partition pump *)

Section PumpProperties.
Import PartitionPump.

Lemma receive_loop_cons (env : Turn) (rest : list Turn) (p : t) :
  _isReceiving p = true →
  receive_loop (env :: rest) p =
    match turn env p with
    | (Resolved next_turn, p1, t1) =>
        match receive_loop rest p1 with (r, p2, t2) => (r, p2, t1 ++ t2) end
    | (Resolved returned, p1, t1) => (Resolved finished, p1, t1 ++ [])
    | (Rejected e, p1, t1) => (Rejected e, p1, t1)
    end.
Proof.
  intros Hr. cbn [receive_loop]. unfold_async. rewrite Hr. cbn.
  destruct (turn env p) as [[[[]|] ?] ?]; cbn;
    try destruct (receive_loop _ _) as [[? ?] ?]; reflexivity.
Qed.

Lemma receive_loop_nil (p : t) :
  _isReceiving p = true →
  receive_loop [] p = (Resolved suspended, p, [receive_call p]).
Proof. intros Hr. cbn. unfold_async. rewrite Hr. reflexivity. Qed.

Lemma receive_loop_stopped (script : list Turn) (p : t) :
  _isReceiving p = false →
  receive_loop script p = (Resolved finished, p, []).
Proof.
  intros Hr. destruct script; cbn; unfold_async; rewrite Hr; reflexivity.
Qed.

Lemma stop_clears_isReceiving (env : Closing) (reason : CloseReason) (p : t) :
  _isReceiving (after (stop env reason p)) = false.
Proof.
  destruct p as [ctx [hi hc] o [r|] isr ab], env as [[|] [|]], hc;
    reflexivity.
Qed.

(** What the [catch] clause of the loop does with a caught error object
    while the pump is receiving: [processError] first, then the
    classification. *)
Lemma caught_object (env : Turn) (name : option string) (retryable : bool)
    (p : t) :
  let err := JsObject name retryable in
  let reported :=
    CallProcessError (partition p) err :: swallowed (processError env) in
  let p1 := meanwhile (processError env) p in
  _isReceiving p = true →
  caught env err p =
    if retryable then (Resolved next_turn, p1, reported)
    else
      match stop (closing env) (reason_for name) p1 with
      | (Resolved _, p2, t2) => (Resolved returned, p2, reported ++ t2)
      | (Rejected e, p2, t2) =>
          (Resolved next_turn, p2,
           reported ++ t2 ++
             [Log log_error
                "An error occurred while closing the receiver with reason EventHubException: "
                (Some e)])
      end.
Proof.
  intros err reported p1 Hr. subst err reported p1.
  destruct p as [ctx [hi hc] o r isr ab]; simpl in Hr; subst isr.
  unfold reason_for, meanwhile, swallowed.
  destruct env as [rb pe [[[]|e] [|]] [[|] [|]]], retryable;
    try reflexivity;
    destruct (decide (name = Some "ReceiverDisconnectedError"%string))
      as [->|Hname];
    destruct r, hc; try reflexivity;
    unfold caught, stop, is_receiver_disconnected; cbn; unfold_async; cbn;
    rewrite !(bool_decide_eq_false_2 _ Hname); reflexivity.
Qed.

Lemma caught_after_stop (env : Turn) (err : JsValue) (p : t) :
  _isReceiving p = false → caught env err p = (Resolved returned, p, []).
Proof. intros Hr. unfold caught. unfold_async. rewrite Hr. reflexivity. Qed.

Lemma turn_receive_rejected (env : Turn) (err : JsValue) (p : t) :
  settles (receiveBatch env) = Rejected err →
  turn env p =
    match caught env err (meanwhile (receiveBatch env) p) with
    | (r, p1, t1) => (r, p1, receive_call p :: t1)
    end.
Proof.
  intros Hs. unfold turn, meanwhile, receive_call.
  destruct env as [[rb irb] pe perr cl]; simpl in Hs; subst rb.
  unfold_async; cbn. destruct irb; reflexivity.
Qed.

Lemma turn_process_rejected (env : Turn) (batch : list ReceivedEventData)
    (err : JsValue) (p : t) :
  _isReceiving p = true →
  receiveBatch env = undisturbed (Resolved batch) →
  settles (processEvents env) = Rejected err →
  turn env p =
    match caught env err (meanwhile (processEvents env) p) with
    | (r, p1, t1) =>
        (r, p1, receive_call p :: CallProcessEvents (partition p) batch :: t1)
    end.
Proof.
  intros Hr Hb Hs. unfold turn, meanwhile, receive_call.
  destruct env as [rb [pe ipe] perr cl]; simpl in Hb, Hs; subst rb pe.
  unfold_async; cbn. rewrite Hr; cbn. destruct ipe; reflexivity.
Qed.

(** C7: if [stop] was called while [receiveBatch] was in flight, the loop
    exits when the call settles, with a batch or with an error alike: the
    only call of the loop is that [receiveBatch]; nothing is given to
    [processEvents] or to [processError], and the rest of the script is
    never asked for. *)
Theorem stop_during_receive_ends_loop_quietly
    (p : t) (env : Turn) (rest : list Turn) :
  _isReceiving p = true →
  interfered (receiveBatch env) = true →
  receive_loop (env :: rest) p
  = (Resolved finished, stop_called p, [receive_call p]).
Proof.
  intros Hr Hi. rewrite receive_loop_cons by done.
  destruct env as [[rb irb] pe perr cl]; simpl in Hi; subst irb.
  destruct p as [ctx h o r isr ab]; simpl in Hr; subst isr.
  destruct rb; reflexivity.
Qed.

Lemma stop_during_receive_ends_loop_quietly_witness :
  receive_loop [stopped_receive (Resolved [event0]); failing_receive JsNull]
    running_pump
  = (Resolved finished, stop_called running_pump,
     [ReceiveBatch "0" 1 None])
  ∧ receive_loop [stopped_receive (Rejected AbortError)] running_pump
    = (Resolved finished, stop_called running_pump,
       [ReceiveBatch "0" 1 None]).
Proof.
  split.
  - apply (stop_during_receive_ends_loop_quietly running_pump
             (stopped_receive (Resolved [event0])) [failing_receive JsNull]);
      reflexivity.
  - apply (stop_during_receive_ends_loop_quietly running_pump
             (stopped_receive (Rejected AbortError)) []); reflexivity.
Defined.

(** C4, as stated, fails: a [ReceiverDisconnectedError] whose [retryable]
    is true is reported to [processError] and the loop goes on; the pump is
    not stopped, and [close(OwnershipLost)] is not called. *)
Lemma retryable_disconnect_keeps_receiving :
  turn (failing_receive (JsObject (Some "ReceiverDisconnectedError"%string) true))
    running_pump
  = (Resolved next_turn, running_pump,
     [ReceiveBatch "0" 1 None;
      CallProcessError "0"
        (JsObject (Some "ReceiverDisconnectedError"%string) true)]).
Proof. reflexivity. Qed.

(** C4, amended: when [receiveBatch] rejects with an error object while the
    pump is receiving, the error goes to [processError] first (what
    [processError] throws is logged and dropped); then, if [err.retryable]
    is truthy, the loop goes on, whatever the name of the error; if not,
    the pump runs [stop], with [OwnershipLost] when [err.name] is
    ["ReceiverDisconnectedError"] and with [EventHubException] otherwise,
    and is no longer receiving. *)
Theorem receive_error_reported_then_classified
    (p : t) (env : Turn) (name : option string) (retryable : bool) :
  let err := JsObject name retryable in
  let reported :=
    receive_call p :: CallProcessError (partition p) err
      :: swallowed (processError env) in
  let p1 := meanwhile (processError env) p in
  _isReceiving p = true →
  receiveBatch env = undisturbed (Rejected err) →
  turn env p
  = (if retryable then (Resolved next_turn, p1, reported)
     else
       match stop (closing env) (reason_for name) p1 with
       | (Resolved _, p2, t2) => (Resolved returned, p2, reported ++ t2)
       | (Rejected e, p2, t2) =>
           (Resolved next_turn, p2,
            reported ++ t2 ++
              [Log log_error
                 "An error occurred while closing the receiver with reason EventHubException: "
                 (Some e)])
       end)
  ∧ (retryable = false → _isReceiving (after (turn env p)) = false).
Proof.
  intros err reported p1 Hr Hb.
  assert (Hs : settles (receiveBatch env) = Rejected err) by (by rewrite Hb).
  rewrite (turn_receive_rejected env err p Hs).
  unfold meanwhile at 1 2. rewrite Hb. cbn [interfered undisturbed].
  subst err reported p1.
  rewrite (caught_object env name retryable p Hr).
  set (p1 := meanwhile (processError env) p).
  destruct retryable.
  - split; [reflexivity | discriminate].
  - pose proof (stop_clears_isReceiving (closing env) (reason_for name) p1)
      as Hstop.
    unfold after in Hstop.
    destruct (stop (closing env) (reason_for name) p1) as [[[[]|e] p2] t2];
      (split; [reflexivity | intros _; exact Hstop]).
Qed.

Lemma receive_error_reported_then_classified_witness :
  turn (failing_receive (JsObject (Some "ReceiverDisconnectedError"%string) false))
    running_pump
  = (Resolved returned, set_aborted (stop_called running_pump),
     [ReceiveBatch "0" 1 None;
      CallProcessError "0"
        (JsObject (Some "ReceiverDisconnectedError"%string) false);
      CloseReceiver "0"; AbortPump "0"; CallClose "0" OwnershipLost]).
Proof.
  exact (proj1 (receive_error_reported_then_classified running_pump
                  (failing_receive
                     (JsObject (Some "ReceiverDisconnectedError"%string) false))
                  (Some "ReceiverDisconnectedError"%string) false
                  eq_refl eq_refl)).
Defined.

Lemma turn_throwing (th : Throw) (p : t) :
  _isReceiving p = true →
  turn (throwing th) p
  = if thrown_retryable th then (Resolved next_turn, p, routed p th)
    else
      match stop (on_close th) (reason_for (thrown_name th)) p with
      | (Resolved _, p2, t2) => (Resolved returned, p2, routed p th ++ t2)
      | (Rejected e, p2, t2) =>
          (Resolved next_turn, p2,
           routed p th ++ t2 ++
             [Log log_error
                "An error occurred while closing the receiver with reason EventHubException: "
                (Some e)])
      end.
Proof.
  intros Hr.
  rewrite (turn_process_rejected (throwing th) (batch th) (thrown th) p Hr
             eq_refl eq_refl).
  unfold meanwhile. cbn [throwing processEvents interfered undisturbed].
  unfold thrown.
  rewrite (caught_object (throwing th) (thrown_name th) (thrown_retryable th)
             p Hr).
  unfold meanwhile, routed, thrown.
  cbn [throwing processError closing interfered undisturbed].
  destruct (thrown_retryable th); [reflexivity|].
  destruct (stop (on_close th) (reason_for (thrown_name th)) p)
    as [[[[]|e] p2] t2]; reflexivity.
Qed.

Lemma receive_loop_retryable_throws (throws : list Throw) (rest : list Turn)
    (p : t) :
  _isReceiving p = true →
  Forall (λ th, thrown_retryable th = true) throws →
  receive_loop (map throwing throws ++ rest) p
  = match receive_loop rest p with
    | (r, p2, t2) => (r, p2, flat_map (routed p) throws ++ t2)
    end.
Proof.
  intros Hr Hall. induction Hall as [|th throws Hth _ IH]; cbn [map flat_map app].
  - destruct (receive_loop rest p) as [[? ?] ?]; reflexivity.
  - rewrite receive_loop_cons by done. rewrite turn_throwing by done.
    rewrite Hth, IH.
    destruct (receive_loop rest p) as [[? ?] ?].
    by rewrite <- app_assoc.
Qed.

(** C3, as stated, fails: a handler that throws an ordinary [Error] makes
    the pump stop itself after the first turn, with [EventHubException];
    the second turn of the script never happens. *)
Lemma throwing_handler_stops_pump :
  receive_loop [throwing plain_error; throwing plain_error] running_pump
  = (Resolved finished, set_aborted (stop_called running_pump),
     [ReceiveBatch "0" 1 None;
      CallProcessEvents "0" [event0];
      CallProcessError "0" (JsObject (Some "Error"%string) false);
      CloseReceiver "0"; AbortPump "0"; CallClose "0" EventHubException]).
Proof. reflexivity. Qed.

(** C3, amended: every error object the user's [processEvents] throws
    while the pump is receiving goes to [processError], and what
    [processError] throws in turn is logged and dropped.  As long as the
    thrown objects have a truthy [retryable], the pump stays as it was and
    the loop goes on to the next [receiveBatch].  The first thrown object
    without it makes the pump run [stop] on itself, with [OwnershipLost]
    when the object is named ["ReceiverDisconnectedError"] and with
    [EventHubException] otherwise: the loop is over, and the rest of the
    script never happens. *)
Theorem throwing_handler_routed_to_processError (p : t) (throws : list Throw) :
  _isReceiving p = true →
  (Forall (λ th, thrown_retryable th = true) throws →
   receive_loop (map throwing throws) p
   = (Resolved suspended, p, flat_map (routed p) throws ++ [receive_call p]))
  ∧ (∀ (before : list Throw) (bad : Throw) (later : list Throw),
       throws = before ++ bad :: later →
       Forall (λ th, thrown_retryable th = true) before →
       thrown_retryable bad = false →
       let r := receive_loop (map throwing throws) p in
       outcome r = Resolved finished
       ∧ _isReceiving (after r) = false
       ∧ calls r
         = flat_map (routed p) before ++ routed p bad
           ++ shutdown_calls (on_close bad) (thrown_name bad) p).
Proof.
  intros Hr. split.
  - intros Hall.
    rewrite <- (app_nil_r (map throwing throws)).
    rewrite receive_loop_retryable_throws by done.
    by rewrite receive_loop_nil.
  - intros before bad later -> Hall Hbad r. subst r.
    rewrite map_app. cbn [map].
    rewrite receive_loop_retryable_throws by done.
    rewrite receive_loop_cons by done. rewrite turn_throwing by done.
    rewrite Hbad. unfold shutdown_calls.
    pose proof (stop_clears_isReceiving (on_close bad)
                  (reason_for (thrown_name bad)) p) as Hstop.
    unfold after in Hstop.
    destruct (stop (on_close bad) (reason_for (thrown_name bad)) p)
      as [[[[]|e] p2] t2]; cbn in Hstop.
    + unfold outcome, after, calls; cbn.
      by rewrite app_nil_r.
    + rewrite receive_loop_stopped by done.
      unfold outcome, after, calls; cbn.
      by rewrite app_nil_r.
Qed.

Lemma throwing_handler_routed_to_processError_witness :
  receive_loop (map throwing [busy_error; busy_error]) running_pump
  = (Resolved suspended, running_pump,
     flat_map (routed running_pump) [busy_error; busy_error]
     ++ [receive_call running_pump])
  ∧ calls (receive_loop (map throwing [busy_error; plain_error; busy_error])
             running_pump)
    = [ReceiveBatch "0" 1 None;
       CallProcessEvents "0" [event0];
       CallProcessError "0" (JsObject (Some "ServerBusyError"%string) true);
       Log log_error "An error was thrown by user's processError method: "
         (Some (JsPrimitive "handler failed"));
       ReceiveBatch "0" 1 None;
       CallProcessEvents "0" [event0];
       CallProcessError "0" (JsObject (Some "Error"%string) false);
       CloseReceiver "0"; AbortPump "0"; CallClose "0" EventHubException].
Proof.
  split.
  - apply (proj1 (throwing_handler_routed_to_processError running_pump
                    [busy_error; busy_error] eq_refl)).
    repeat constructor.
  - apply (proj2 (proj2 (proj2 (throwing_handler_routed_to_processError
                    running_pump [busy_error; plain_error; busy_error] eq_refl)
                    [busy_error] plain_error [busy_error] eq_refl
                    ltac:(repeat constructor) eq_refl))).
Defined.

(** C5, as stated, fails: an error thrown by the user's [close] handler is
    logged and thrown again, so the promise of [stop] rejects with it. *)
Lemma stop_rethrows_close_error :
  stop failing_close Shutdown running_pump
  = (Rejected (JsObject (Some "Error"%string) false),
     set_aborted (stop_called running_pump),
     [CloseReceiver "0"; AbortPump "0"; CallClose "0" Shutdown;
      Log log_error "An error occurred while closing the receiver."
        (Some (JsObject (Some "Error"%string) false))]).
Proof. reflexivity. Qed.

(** C5, amended: [stop(reason)] clears [isReceiving]; then closes the
    reader, if one was created; then aborts the pump's cancellation token;
    then calls the user's [close(reason)], if the handler defines it.  An
    error of the reader's [close] or of the user's [close] is logged and
    thrown again to the caller of [stop]; after a failed reader [close]
    neither the abort nor the user's [close] takes place.  A [stop] after a
    [stop] that resolved leaves the pump's fields as they were. *)
Theorem stop_closes_in_order_and_rethrows
    (env : Closing) (reason : CloseReason) (p : t) :
  let r := stop env reason p in
  _isReceiving (after r) = false
  ∧ (∀ e, is_Some (_receiver p) → receiver_close env = Rejected e →
       r = (Rejected e, stop_called p,
            [CloseReceiver (partition p);
             Log log_error "An error occurred while closing the receiver."
               (Some e)]))
  ∧ (∀ e, (is_Some (_receiver p) → receiver_close env = Resolved tt) →
       close_defined (_partitionProcessor p) = true →
       user_close env = Rejected e →
       r = (Rejected e, set_aborted (stop_called p),
            reader_closed p
            ++ [AbortPump (partition p); CallClose (partition p) reason;
                Log log_error "An error occurred while closing the receiver."
                  (Some e)]))
  ∧ ((is_Some (_receiver p) → receiver_close env = Resolved tt) →
     (close_defined (_partitionProcessor p) = true →
      user_close env = Resolved tt) →
     r = (Resolved tt, set_aborted (stop_called p),
          reader_closed p ++ [AbortPump (partition p)]
          ++ handler_closed reason p))
  ∧ (∀ (env' : Closing) (reason' : CloseReason),
       outcome r = Resolved tt →
       after (stop env' reason' (after r)) = after r).
Proof.
  intros r. subst r. unfold reader_closed, handler_closed.
  destruct p as [ctx [hi hc] o rcv isr ab], env as [rc uc].
  cbn [_receiver _partitionProcessor close_defined receiver_close user_close].
  repeat split.
  - destruct rcv, rc as [[]|], uc as [[]|], hc; reflexivity.
  - intros e [c ->] ->. reflexivity.
  - intros e Hrc -> ->. destruct rcv as [c|]; [rewrite Hrc by eauto|];
      reflexivity.
  - intros Hrc Huc. destruct rcv as [c|], hc;
      rewrite ?Hrc, ?Huc by eauto; reflexivity.
  - intros [rc' uc'] reason'.
    destruct rcv, rc as [[]|], uc as [[]|], hc; try discriminate; intros _;
      destruct rc' as [[]|], uc' as [[]|]; reflexivity.
Qed.

Lemma stop_closes_in_order_and_rethrows_witness :
  stop quiet_closing Shutdown running_pump
  = (Resolved tt, set_aborted (stop_called running_pump),
     [CloseReceiver "0"; AbortPump "0"; CallClose "0" Shutdown])
  ∧ after (stop failing_close OwnershipLost
             (after (stop quiet_closing Shutdown running_pump)))
    = after (stop quiet_closing Shutdown running_pump).
Proof.
  pose proof (stop_closes_in_order_and_rethrows quiet_closing Shutdown
                running_pump) as (_ & _ & _ & Hquiet & Hagain).
  split.
  - apply Hquiet; reflexivity.
  - apply Hagain; reflexivity.
Defined.

(** The task running [_receiveEvents] can itself reject: here the first
    [receiveBatch] rejects with [null], and reading [null.retryable] in the
    [catch] clause raises a [TypeError] that nothing catches. *)
Example receive_task_can_reject :
  outcome (_receiveEvents "0"
             {| createConsumer := Resolved tt;
                script := [failing_receive JsNull] |}
             (set_isReceiving true (new partition0 full_handler None)))
  = Rejected TypeError.
Proof. reflexivity. Qed.

(** C9: the promise of [start] resolves whatever the user's [initialize]
    and the launched receive loop do: [initialize] is awaited and its error
    dropped, [_receiveEvents] is called and not awaited, and the only thing
    [start] does afterwards is to log.  No settlement of the loop's task,
    for any script of answers, changes the settlement of [start]. *)
Theorem start_resolves_whatever_the_loop_does (env : Starting) (p : t) :
  outcome (start env p) = Resolved tt
  ∧ ∃ p1 : t,
      _isReceiving p1
      = (if initialize_defined (_partitionProcessor p)
         then negb (interfered (initialize env))
         else true)
      ∧ calls (start env p)
        = initialized p
          ++ calls (_receiveEvents (partition p) (receiving env) p1)
          ++ [Log log_partitionPump "Successfully started the receiver." None].
Proof.
  unfold initialized.
  destruct p as [ctx [hi hc] o rcv isr ab], env as [[ini iini] rcving].
  cbn [_partitionProcessor initialize_defined initialize interfered receiving].
  set (p0 := set_isReceiving true
               {| _partitionContext := ctx;
                  _partitionProcessor :=
                    {| initialize_defined := hi; close_defined := hc |};
                  _processorOptions := o;
                  _receiver := rcv;
                  _isReceiving := isr;
                  _abortController := ab |}).
  set (p1 := if hi then (if iini then stop_called p0 else p0) else p0).
  assert (Hrun : start {| initialize := {| settles := ini; interfered := iini |};
                          receiving := rcving |}
                   {| _partitionContext := ctx;
                      _partitionProcessor :=
                        {| initialize_defined := hi; close_defined := hc |};
                      _processorOptions := o;
                      _receiver := rcv;
                      _isReceiving := isr;
                      _abortController := ab |}
                 = match _receiveEvents (pc_partitionId ctx) rcving p1 with
                   | (_, p2, t2) =>
                       (Resolved tt, p2,
                        (if hi then [CallInitialize (pc_partitionId ctx)]
                         else [])
                        ++ t2
                        ++ [Log log_partitionPump
                              "Successfully started the receiver." None])
                   end).
  { subst p1 p0. unfold start, partition, stop_called, set_isReceiving.
    unfold_async. cbn.
    destruct hi; [destruct ini as [[]|e], iini|]; cbn;
      match goal with
      | |- context [_receiveEvents ?a ?b ?c] =>
          destruct (_receiveEvents a b c) as [[? ?] ?]
      end; reflexivity. }
  rewrite Hrun. unfold partition.
  cbn [_partitionContext].
  split.
  - destruct (_receiveEvents (pc_partitionId ctx) rcving p1) as [[? ?] ?];
      reflexivity.
  - exists p1. split.
    + subst p1 p0. destruct hi, iini; reflexivity.
    + destruct (_receiveEvents (pc_partitionId ctx) rcving p1) as [[? ?] ?];
        reflexivity.
Qed.

End PumpProperties.

(** ** The event processor *)

Section ProcessorProperties.
Import EventProcessor.

(** *** The start position of a claimed partition *)

Lemma eventPosition_checkpoint (request : PartitionOwnership)
    (options : EventProcessorOptions) (n : Z) :
  sequenceNumber request = Some n → n ≠ 0 →
  eventPosition request options = fromSequenceNumber n.
Proof.
  intros Hn Hz. unfold eventPosition. rewrite Hn.
  by destruct (Z.eqb_spec n 0).
Qed.

Lemma eventPosition_no_checkpoint (request : PartitionOwnership)
    (options : EventProcessorOptions) :
  sequenceNumber request = None →
  eventPosition request options
  = or_object (initialEventPosition options) earliest.
Proof. intros Hn. unfold eventPosition. by rewrite Hn. Qed.

Lemma eventPosition_checkpoint_zero (request : PartitionOwnership)
    (options : EventProcessorOptions) :
  sequenceNumber request = Some 0 →
  eventPosition request options
  = or_object (initialEventPosition options) earliest.
Proof. intros Hn. unfold eventPosition. by rewrite Hn. Qed.

(** C1 at the failing input: the previous record of partition "1" holds
    the checkpoint [sequenceNumber = 0] and the processor was given
    [initialEventPosition = latest].  The truthiness test takes the
    checkpoint for a missing one: [createPump] is given [latest], and,
    however [createPump] builds the options of the pump, the reader is
    opened exactly where it is opened when there is no previous record;
    [fromSequenceNumber 0] is not computed anywhere. *)
Theorem checkpoint_zero_is_taken_for_none
    (handover : EventProcessorOptions → EventPosition → EventProcessorOptions) :
  let with_checkpoint :=
    _claimOwnership handover {[ "1"%string := checkpointed (Some 0) ]}
      "1" (claim_answered (Resolved [request1 (Some (checkpointed (Some 0)))]))
      (fresh_processor (Some latest)) in
  let without_record :=
    _claimOwnership handover ∅
      "1" (claim_answered (Resolved [request1 None]))
      (fresh_processor (Some latest)) in
  CreatePump partition1 latest ∈ calls with_checkpoint
  ∧ opened_at (calls with_checkpoint)
    = [or_object
         (initialEventPosition (handover (options_from (Some latest)) latest))
         earliest]
  ∧ opened_at (calls with_checkpoint) = opened_at (calls without_record)
  ∧ after with_checkpoint = after without_record.
Proof.
  intros with_checkpoint without_record.
  assert (Hw : calls with_checkpoint
    = [Log log_partitionLoadBalancer
         "Attempting to claim ownership of partition." None;
       ClaimOwnership [request1 (Some (checkpointed (Some 0)))];
       Log log_partitionLoadBalancer
         "Successfully claimed ownership of partition." None;
       Log log_partitionLoadBalancer
         "Calling user-provided PartitionProcessorFactory." None;
       CallFactory partition1;
       CreatePump partition1 latest;
       CallInitialize "1";
       CreateConsumer "$Default" "1"
         (or_object
            (initialEventPosition
               (handover (options_from (Some latest)) latest)) earliest) 0;
       ReceiveBatch "1"
         (or_number
            (maxBatchSize (handover (options_from (Some latest)) latest)) 1)
         (maxWaitTimeInSeconds (handover (options_from (Some latest)) latest));
       Log log_partitionPump "Successfully started the receiver." None;
       Log log_partitionLoadBalancer "PartitionPump created successfully."
         None]) by reflexivity.
  split; [|split; [|split]].
  - rewrite Hw. set_solver.
  - rewrite Hw. reflexivity.
  - reflexivity.
  - reflexivity.
Qed.

(** With the checkpoint 42 the position given to [createPump] is
    [fromSequenceNumber 42].  Whether the reader is opened there is up to
    [createPump]: the constructor of the pump has no parameter for it, and
    [_receiveEvents] reads the position from the pump's options. *)
Example checkpoint_reaches_reader_through_options :
  opened_at
    (calls (_claimOwnership position_in_options
              {[ "1"%string := checkpointed (Some 42) ]} "1"
              (claim_answered (Resolved []))
              (fresh_processor None)))
  = [fromSequenceNumber 42].
Proof. reflexivity. Qed.

Example checkpoint_lost_with_own_options :
  opened_at
    (calls (_claimOwnership own_options
              {[ "1"%string := checkpointed (Some 42) ]} "1"
              (claim_answered (Resolved []))
              (fresh_processor None)))
  = [earliest].
Proof. reflexivity. Qed.

(** *** Claiming *)

(** The value [claimOwnership] resolves with is never read: every answer
    of the store, the empty one included, leads to the same calls and the
    same processor. *)
Lemma claim_result_is_dropped
    (handover : EventProcessorOptions → EventPosition → EventProcessorOptions)
    (partitionOwnershipMap : gmap string PartitionOwnership)
    (partitionIdToClaim : string) (env : Claiming) (p : t)
    (won won' : list PartitionOwnership) :
  _claimOwnership handover partitionOwnershipMap partitionIdToClaim
    (with_answer env (Resolved won)) p
  = _claimOwnership handover partitionOwnershipMap partitionIdToClaim
      (with_answer env (Resolved won')) p.
Proof. destruct env as [[a []] f c s]; reflexivity. Qed.

(** A [claimOwnership] that throws is logged, and nothing else happens. *)
Lemma claim_rejected_only_logs
    (handover : EventProcessorOptions → EventPosition → EventProcessorOptions)
    (partitionOwnershipMap : gmap string PartitionOwnership)
    (partitionIdToClaim : string) (env : Claiming) (p : t) (e : JsValue) :
  settles (claimOwnership env) = Rejected e →
  _claimOwnership handover partitionOwnershipMap partitionIdToClaim env p
  = (Resolved tt, disturbed (claimOwnership env) p,
     [Log log_partitionLoadBalancer
        "Attempting to claim ownership of partition." None;
      ClaimOwnership
        [_createPartitionOwnershipRequest partitionOwnershipMap
           partitionIdToClaim p];
      Log log_error "Failed to claim ownership of partition" None]).
Proof.
  intros He. destruct env as [[a i] f c s]; simpl in He; subst a.
  destruct i; reflexivity.
Qed.

(** C2 at the failing input: the store answers the claim of partition "1"
    with the empty list.  The processor logs a success, calls the user's
    factory and creates and starts a pump for the partition, as it does
    for an answer that holds the request. *)
Theorem empty_claim_result_starts_pump
    (handover : EventProcessorOptions → EventPosition → EventProcessorOptions) :
  let lost :=
    _claimOwnership handover {[ "1"%string := checkpointed (Some 42) ]}
      "1" (claim_answered (Resolved [])) (fresh_processor None) in
  Log log_partitionLoadBalancer
    "Successfully claimed ownership of partition." None ∈ calls lost
  ∧ CallFactory partition1 ∈ calls lost
  ∧ CreatePump partition1 (fromSequenceNumber 42) ∈ calls lost
  ∧ CallInitialize "1" ∈ calls lost
  ∧ is_Some
      (PumpManager._partitionIdToPumps (_pumpManager (after lost)) !! "1"%string)
  ∧ lost
    = _claimOwnership handover {[ "1"%string := checkpointed (Some 42) ]}
        "1"
        (claim_answered (Resolved [request1 (Some (checkpointed (Some 42)))]))
        (fresh_processor None).
Proof.
  intros lost.
  assert (Hw : calls lost
    = [Log log_partitionLoadBalancer
         "Attempting to claim ownership of partition." None;
       ClaimOwnership [request1 (Some (checkpointed (Some 42)))];
       Log log_partitionLoadBalancer
         "Successfully claimed ownership of partition." None;
       Log log_partitionLoadBalancer
         "Calling user-provided PartitionProcessorFactory." None;
       CallFactory partition1;
       CreatePump partition1 (fromSequenceNumber 42);
       CallInitialize "1";
       CreateConsumer "$Default" "1"
         (or_object
            (initialEventPosition
               (handover (options_from None) (fromSequenceNumber 42)))
            earliest) 0;
       ReceiveBatch "1"
         (or_number
            (maxBatchSize
               (handover (options_from None) (fromSequenceNumber 42))) 1)
         (maxWaitTimeInSeconds
            (handover (options_from None) (fromSequenceNumber 42)));
       Log log_partitionPump "Successfully started the receiver." None;
       Log log_partitionLoadBalancer "PartitionPump created successfully."
         None]) by reflexivity.
  rewrite Hw.
  split; [set_solver|]. split; [set_solver|]. split; [set_solver|].
  split; [set_solver|]. split; [|reflexivity].
  eexists. reflexivity.
Qed.

(** *** The control loop *)

Section Loop.
Variable handover :
  EventProcessorOptions → EventPosition → EventProcessorOptions.
Variable signal : nat.

Lemma runLoop_cons (env : Tick) (rest : list Tick) (p : t) :
  aborted signal p = false →
  _runLoop handover signal (env :: rest) p
  = match tick handover signal env p with
    | (Resolved next_turn, p1, t1) =>
        prefixed t1 (_runLoop handover signal rest p1)
    | (Resolved returned, p1, t1) => (Resolved finished, p1, t1 ++ [])
    | (Rejected e, p1, t1) => (Rejected e, p1, t1)
    end.
Proof.
  intros Ha. cbn [_runLoop]. unfold_async. rewrite Ha. cbn.
  destruct (tick handover signal env p) as [[[[]|] ?] ?]; cbn;
    try destruct (_runLoop _ _ _ _) as [[? ?] ?]; reflexivity.
Qed.

Lemma runLoop_nil (p : t) :
  aborted signal p = false →
  _runLoop handover signal [] p
  = (Resolved suspended, p,
     [ListOwnership (_eventHubName p) (_consumerGroupName p)]).
Proof. intros Ha. cbn. unfold_async. rewrite Ha. reflexivity. Qed.


Ltac destruct_createPump :=
  match goal with
  | |- context [PumpManager.createPump ?h ?a ?b ?c ?d ?e] =>
      destruct (PumpManager.createPump h a b c d e) as [[[[]|?] ?] ?]
  end.

Lemma claim_never_rejects
    (partitionOwnershipMap : gmap string PartitionOwnership)
    (partitionIdToClaim : string) (env : Claiming) (p : t) :
  outcome (_claimOwnership handover partitionOwnershipMap partitionIdToClaim
             env p) = Resolved tt.
Proof.
  destruct env as [[[l|e] i] [h|e'] c s];
    unfold _claimOwnership; unfold_async; cbn -[PumpManager.createPump];
    try reflexivity.
  destruct_createPump; reflexivity.
Qed.














End Loop.

(** Once [stop] has aborted the token, here during the pause, the loop
    logs the [AbortError] of the pause, finds the token aborted and
    returns; the rest of the script never happens. *)
Example control_loop_ends_after_abort :
  _runLoop own_options 0
    [ {| listOwnership := listOwnership quiet_tick;
         getPartitionIds := undisturbed (Resolved []);
         loadBalance := loadBalance quiet_tick;
         claiming := claiming quiet_tick;
         delay := {| settles := Rejected AbortError; interfered := true |};
         error_text := Resolved tt |};
      quiet_tick ]
    started_processor
  = (Resolved finished, stop_called started_processor,
     [ListOwnership "hub" "$Default"; GetPartitionIds; pausing;
      Delay 10000 0; loop_error AbortError]).
Proof. reflexivity. Qed.

(** The token is tested between [getPartitionIds] and the claim, and not
    after the claim: when [stop] is called while [claimOwnership] is in
    flight, the turn still calls the factory and creates the pump, and the
    loop ends at its next test of the token. *)
Example claim_in_flight_at_stop_creates_pump :
  let r :=
    _runLoop own_options 0
      [ {| listOwnership := listOwnership quiet_tick;
           getPartitionIds := getPartitionIds quiet_tick;
           loadBalance := loadBalance quiet_tick;
           claiming :=
             {| claimOwnership :=
                  {| settles := Resolved []; interfered := true |};
                factory := Resolved full_handler;
                creating := creating (claiming quiet_tick);
                stopped_while_creating := false |};
           delay := undisturbed (Rejected AbortError);
           error_text := Resolved tt |} ]
      started_processor in
  outcome r = Resolved finished
  ∧ aborted 0 (after r) = true
  ∧ (PartitionPump._isReceiving
       <$> PumpManager._partitionIdToPumps (_pumpManager (after r))
           !! "1"%string)
    = Some true.
Proof. repeat split. Qed.



(** *** Starting and stopping *)

Lemma stop_each_keeps_manager (closing : string → PartitionPump.Closing)
    (reason : CloseReason) (pumps : list (string * PartitionPump.t))
    (m : PumpManager.t) :
  ∃ r : Settled unit,
    outcome (PumpManager.stop_each closing reason pumps m) = Resolved r
    ∧ after (PumpManager.stop_each closing reason pumps m) = m.
Proof.
  induction pumps as [|[pid pump] rest (r & Ho & Ha)]; cbn.
  - by exists (Resolved tt).
  - unfold outcome, after in *. unfold_async.
    destruct (PartitionPump.stop (closing pid) reason pump) as [[r1 ?] ?].
    destruct (PumpManager.stop_each closing reason rest m) as [[? ?] ?].
    cbn in *. subst. eexists. split; reflexivity.
Qed.

Lemma removeAllPumps_empties (closing : string → PartitionPump.Closing)
    (reason : CloseReason) (m : PumpManager.t) :
  after (PumpManager.removeAllPumps closing reason m)
  = PumpManager.set_pumps ∅ m.
Proof.
  unfold PumpManager.removeAllPumps. unfold_async. cbn.
  destruct (stop_each_keeps_manager closing reason
              (map_to_list (PumpManager._partitionIdToPumps m)) m)
    as (r & Ho & Ha).
  unfold outcome, after in *.
  destruct (PumpManager.stop_each _ _ _ _) as [[? ?] ?]. cbn in *. subst.
  by destruct r.
Qed.

Lemma removeAllPumps_nothing_left (closing : string → PartitionPump.Closing)
    (reason : CloseReason) (m : PumpManager.t) :
  PumpManager._partitionIdToPumps m = ∅ →
  PumpManager.removeAllPumps closing reason m = (Resolved tt, m, []).
Proof.
  intros He. unfold PumpManager.removeAllPumps. unfold_async. cbn.
  rewrite He, map_to_list_empty. cbn. destruct m; cbn in *. by subst.
Qed.

Lemma stop_called_again (p : t) : stop_called (stop_called p) = stop_called p.
Proof.
  destruct p as [g h o pm i run task [c|] heap]; unfold stop_called, abort;
    cbn; by rewrite ?list_insert_insert_eq.
Qed.

Lemma new_controller_not_aborted (p : t) :
  aborted (length (controllers p)) (new_controller p) = false.
Proof.
  unfold aborted, new_controller. cbn.
  by rewrite list_lookup_middle.
Qed.

(** What [start] does on a processor that is not running; the loop it
    launches watches the controller just created. *)
Lemma start_launches
    (handover : EventProcessorOptions → EventPosition → EventProcessorOptions)
    (p : t) :
  _isRunning p = false →
  start handover p
  = (Resolved tt,
     set_loopTask (Some (length (controllers p)))
       (new_controller (set_isRunning true p)),
     [NewAbortController (length (controllers p));
      Log log_eventProcessor "Starting an EventProcessor." None;
      LaunchLoop (length (controllers p));
      ListOwnership (_eventHubName p) (_consumerGroupName p)]).
Proof.
  intros Hrun. unfold start. unfold_async. rewrite Hrun.
  cbn -[_runLoop new_controller].
  rewrite (runLoop_nil handover (length (controllers p))
             (new_controller (set_isRunning true p)))
    by apply (new_controller_not_aborted (set_isRunning true p)).
  reflexivity.
Qed.


Section Stopping.
Variable handover :
  EventProcessorOptions → EventPosition → EventProcessorOptions.

(** A claim changes the pump manager, and nothing else than a [stop]
    called in the meantime changes. *)
Lemma claim_leaves_control
    (partitionOwnershipMap : gmap string PartitionOwnership)
    (partitionIdToClaim : string) (env : Claiming) (p : t) :
  ∃ (pumps : PumpManager.t) (stopped : bool),
    after (_claimOwnership handover partitionOwnershipMap partitionIdToClaim
             env p)
    = set_pumpManager pumps (if stopped then stop_called p else p).
Proof.
  assert (Hsame : ∀ q : t, q = set_pumpManager (_pumpManager q) q)
    by (by intros []).
  assert (Hcomm : ∀ (m : PumpManager.t) (q : t),
             stop_called (set_pumpManager m q)
             = set_pumpManager m (stop_called q)).
  { intros m [g h o pm i run task [c|] heap]; reflexivity. }
  destruct env as [[[l|e] i] [h|e'] c s];
    unfold _claimOwnership; unfold_async; cbn -[PumpManager.createPump].
  - destruct (PumpManager.createPump _ _ _ _ _ _) as [[[[]|?] pm'] ?];
      cbn -[stop_called].
    + exists pm', (i || s).
      destruct i, s; cbn -[stop_called];
        rewrite ?Hcomm, ?stop_called_again; reflexivity.
    + exists pm', i. by destruct i.
  - exists (_pumpManager (if i then stop_called p else p)), i.
    destruct i; apply Hsame.
  - exists (_pumpManager (if i then stop_called p else p)), i.
    destruct i; apply Hsame.
  - exists (_pumpManager (if i then stop_called p else p)), i.
    destruct i; apply Hsame.
Qed.

(** What the loop task does while [stop] awaits it changes the pump
    manager only: [stop] has already done what a [stop] does. *)
Lemma loop_task_finishes_pumps (claim : option InFlight) (p : t) :
  ∃ pumps : PumpManager.t,
    loop_task_finishes handover claim (stop_called p)
    = set_pumpManager pumps (stop_called p).
Proof.
  destruct claim as [c|]; cbn.
  - destruct (claim_leaves_control (claimed_map c) (claimed_partition c)
                (claim_answers c) (stop_called p)) as (pumps & b & ->).
    exists pumps. destruct b; by rewrite ?stop_called_again.
  - exists (_pumpManager (stop_called p)). by destruct p as [? ? ? ? ? ? ? [?|] ?].
Qed.

(** What [stop] does, in terms of what removing the pumps does. *)
Lemma stop_unfolded (env : Stopping) (p : t) :
  let removal :=
    PumpManager.removeAllPumps (removing env) Shutdown (_pumpManager p) in
  let removed :=
    set_pumpManager (PumpManager.set_pumps ∅ (_pumpManager p))
      (stop_called p) in
  let failure := shutdown_failure (outcome removal) env p in
  stop handover env p
  = (stop_settles env failure,
     match outcome removal, _loopTask p with
     | Resolved _, Some _ => loop_task_finishes handover (in_flight env) removed
     | _, _ => removed
     end,
     [Log log_eventProcessor "Stopping an EventProcessor." None]
     ++ aborting p ++ [RemoveAllPumps Shutdown] ++ calls removal
     ++ awaited (outcome removal) p
     ++ stop_logs env failure
     ++ [Log log_eventProcessor "EventProcessor stopped." None]).
Proof.
  intros removal removed failure. subst removal removed failure.
  destruct env as [rm fl lt et], p as [g h o pm i run task ctl heap].
  pose proof (removeAllPumps_empties rm Shutdown pm) as Ha.
  unfold after, outcome, calls in *.
  unfold stop, aborting, awaited, shutdown_failure, stop_settles, stop_logs,
    stop_called.
  unfold_async.
  destruct ctl as [c|];
    cbn -[PumpManager.removeAllPumps loop_task_finishes to_text] in *;
    destruct (PumpManager.removeAllPumps rm Shutdown pm) as [[r pm'] tr];
    cbn -[loop_task_finishes to_text] in *; subst pm';
    destruct r as [[]|e], task as [k|], lt as [[]|e'];
    cbn -[loop_task_finishes to_text];
    repeat match goal with
           | |- context [to_text et ?v] => destruct (to_text et v) as [[]|?]
           end;
    cbn -[loop_task_finishes]; rewrite <- ?app_assoc; reflexivity.
Qed.

(** Whatever happens during shutdown, [stop] leaves the processor as its
    first statements made it, but for the pumps. *)
Lemma stop_leaves_control (env : Stopping) (p : t) :
  ∃ pumps : PumpManager.t,
    after (stop handover env p) = set_pumpManager pumps (stop_called p).
Proof.
  rewrite stop_unfolded. unfold after. cbn [fst snd].
  assert (Hcomm : set_pumpManager
                    (PumpManager.set_pumps ∅ (_pumpManager p)) (stop_called p)
                  = stop_called
                      (set_pumpManager
                         (PumpManager.set_pumps ∅ (_pumpManager p)) p)).
  { by destruct p as [g h o pm i run task [c|] heap]. }
  destruct (outcome _), (_loopTask p);
    try (eexists; reflexivity).
  rewrite Hcomm.
  destruct (loop_task_finishes_pumps (in_flight env)
              (set_pumpManager (PumpManager.set_pumps ∅ (_pumpManager p)) p))
    as (pumps & ->).
  exists pumps. by destruct p as [g h o pm i run task [c|] heap].
Qed.


End Stopping.



(** C10: on a processor that was never started [stop] skips the abort
    (there is no controller), calls [removeAllPumps(Shutdown)], which
    finds no pump, does not wait for a loop task (there is none), logs,
    and resolves; the processor is left as the constructor made it. *)
Theorem stop_before_start_is_safe
    (handover : EventProcessorOptions → EventPosition → EventProcessorOptions)
    (id consumerGroupName eventHubName : string)
    (options : option EventProcessorOptions) (env : Stopping) :
  stop handover env (new id consumerGroupName eventHubName options)
  = (Resolved tt, new id consumerGroupName eventHubName options,
     [Log log_eventProcessor "Stopping an EventProcessor." None;
      RemoveAllPumps Shutdown;
      Log log_eventProcessor "EventProcessor stopped." None]).
Proof.
  rewrite stop_unfolded.
  rewrite removeAllPumps_nothing_left by reflexivity.
  reflexivity.
Qed.

End ProcessorProperties.

(** * Further properties *)

(** ** The partition pump *)

Section MorePumpProperties.
Import PartitionPump.

(** X1.  If [stop] is called while the user's [processEvents] is in flight, the
    loop ends when the handler settles: an error the handler throws is not
    given to [processError], and [receiveBatch] is not called again. *)
Theorem stop_during_processEvents_ends_loop
    (p : t) (env : Turn) (rest : list Turn) (batch : list ReceivedEventData) :
  _isReceiving p = true →
  receiveBatch env = undisturbed (Resolved batch) →
  interfered (processEvents env) = true →
  receive_loop (env :: rest) p
  = (Resolved finished, stop_called p,
     [receive_call p; CallProcessEvents (partition p) batch]).
Proof.
  intros Hr Hb Hi. rewrite receive_loop_cons by done.
  destruct env as [rb [pe ipe] perr cl]; simpl in Hb, Hi; subst rb ipe.
  destruct p as [ctx h o r isr ab]; simpl in Hr; subst isr.
  destruct pe as [[]|e]; [|reflexivity].
  change (turn _ _) with
    (Resolved next_turn,
     stop_called
       {| _partitionContext := ctx; _partitionProcessor := h;
          _processorOptions := o; _receiver := r; _isReceiving := true;
          _abortController := ab |},
     [ReceiveBatch (pc_partitionId ctx) (or_number (maxBatchSize o) 1)
        (maxWaitTimeInSeconds o);
      CallProcessEvents (pc_partitionId ctx) batch]).
  cbn iota beta. by rewrite receive_loop_stopped.
Qed.

Lemma stop_during_processEvents_ends_loop_witness :
  receive_loop
    [ {| receiveBatch := undisturbed (Resolved [event0]);
         processEvents :=
           {| settles := Rejected (JsObject (Some "Error"%string) false);
              interfered := true |};
         processError := undisturbed (Resolved tt);
         closing := quiet_closing |};
      failing_receive JsNull ]
    running_pump
  = (Resolved finished, stop_called running_pump,
     [ReceiveBatch "0" 1 None; CallProcessEvents "0" [event0]]).
Proof.
  apply (stop_during_processEvents_ends_loop running_pump _ _ [event0]);
    reflexivity.
Defined.

Ltac destruct_stop :=
  match goal with
  | |- context [stop ?c ?r ?p] =>
      let H := fresh "Hstop" in
      pose proof (stop_clears_isReceiving c r p) as H;
      unfold after in H;
      destruct (stop c r p) as [[[[]|?] ?] ?]; cbn in H
  end.

Lemma caught_settlement (env : Turn) (err : JsValue) (p : t) :
  match outcome (caught env err p) with
  | Resolved returned => _isReceiving (after (caught env err p)) = false
  | Resolved next_turn => True
  | Rejected e => e = TypeError
  end.
Proof.
  destruct env as [rb pe [perr iperr] cl].
  unfold caught. unfold_async. cbn -[stop].
  destruct (_isReceiving p) eqn:Hr; cbn -[stop]; [|exact Hr].
  destruct err as [| |s|name retryable], perr as [[]|e']; cbn -[stop];
    try reflexivity; try exact I;
    try (destruct retryable; cbn -[stop]; [exact I|]);
    try case_bool_decide; cbn -[stop];
    destruct_stop; try exact I; exact Hstop.
Qed.

Lemma turn_settlement (env : Turn) (p : t) :
  match outcome (turn env p) with
  | Resolved returned => _isReceiving (after (turn env p)) = false
  | Resolved next_turn => True
  | Rejected e => e = TypeError
  end.
Proof.
  destruct env as [[rb irb] [pe ipe] perr cl].
  set (env := {| receiveBatch := {| settles := rb; interfered := irb |};
                 processEvents := {| settles := pe; interfered := ipe |};
                 processError := perr; closing := cl |}).
  destruct rb as [batch|err].
  - destruct (_isReceiving ((if irb then stop_called else id) p)) eqn:Hr.
    + destruct pe as [[]|err].
      * replace (outcome (turn env p)) with (Resolved (A:=Flow) next_turn);
          [exact I|].
        unfold turn. unfold_async. cbn. by rewrite Hr.
      * pose proof (caught_settlement env err
                      ((if ipe then stop_called else id)
                         ((if irb then stop_called else id) p))) as Hc.
        unfold turn. unfold_async. cbn -[caught]. rewrite Hr. cbn -[caught].
        unfold outcome, after in Hc.
        destruct (caught env err _) as [[[[]|] ?] ?]; exact Hc.
    + unfold turn. unfold_async. cbn. rewrite Hr. exact Hr.
  - pose proof (caught_settlement env err
                  ((if irb then stop_called else id) p)) as Hc.
    unfold turn. unfold_async. cbn -[caught].
    unfold outcome, after in Hc.
    destruct (caught env err _) as [[[[]|] ?] ?]; exact Hc.
Qed.

(** X2.  Whatever the broker and the user's handlers answer, by whichever
    way the receive loop has returned (its test, a [return] after an
    await, or the [stop] it calls on itself), the pump is then not marked
    as receiving.  The promise of the loop never rejects with an error of
    the broker or of the user's handlers: the one rejection there is is
    the [TypeError] raised when the [catch] clause reads a property of a
    thrown [null]. *)
Theorem receive_loop_standing (script : list Turn) (p : t) :
  match outcome (receive_loop script p) with
  | Resolved finished => _isReceiving (after (receive_loop script p)) = false
  | Resolved suspended => True
  | Rejected e => e = TypeError
  end.
Proof.
  revert p. induction script as [|env rest IH]; intros p.
  - destruct (_isReceiving p) eqn:Hr.
    + by rewrite receive_loop_nil.
    + by rewrite receive_loop_stopped.
  - destruct (_isReceiving p) eqn:Hr.
    + rewrite receive_loop_cons by done.
      pose proof (turn_settlement env p) as Ht.
      unfold outcome, after in Ht.
      destruct (turn env p) as [[[[]|e] p1] t1]; cbn in Ht.
      * specialize (IH p1). unfold outcome, after in IH.
        destruct (receive_loop rest p1) as [[? ?] ?]. exact IH.
      * exact Ht.
      * exact Ht.
    + by rewrite receive_loop_stopped.
Qed.

(** What the [catch] clause does with a caught value that is not an
    object, while the pump is receiving. *)
Lemma caught_not_object (env : Turn) (err : JsValue) (p : t) :
  let reported :=
    CallProcessError (partition p) err :: swallowed (processError env) in
  let p1 := meanwhile (processError env) p in
  _isReceiving p = true →
  caught env err p
  = match err with
    | JsPrimitive _ =>
        match stop (closing env) EventHubException p1 with
        | (Resolved _, p2, t2) => (Resolved returned, p2, reported ++ t2)
        | (Rejected e, p2, t2) =>
            (Resolved next_turn, p2,
             reported ++ t2 ++
               [Log log_error
                  "An error occurred while closing the receiver with reason EventHubException: "
                  (Some e)])
        end
    | JsUndefined =>
        (Resolved next_turn, p1,
         reported ++
           [Log log_error
              "An error occurred while closing the receiver with reason EventHubException: "
              (Some TypeError)])
    | JsNull => (Rejected TypeError, p1, reported)
    | JsObject _ _ => caught env err p
    end.
Proof.
  intros reported p1 Hr. subst reported p1.
  destruct p as [ctx [hi hc] o r isr ab]; simpl in Hr; subst isr.
  unfold meanwhile, swallowed.
  destruct err as [| |text|name retryable]; [| | |reflexivity];
    destruct env as [rb pe [[[]|e] [|]] [[|] [|]]]; try reflexivity;
    destruct r, hc; reflexivity.
Qed.

(** X3.  A primitive thrown by the user's [processEvents] (a string, a number)
    is reported to [processError], and then always stops the pump, with
    [EventHubException]: the loop is over, whatever the script holds
    next. *)
Theorem thrown_primitive_stops_pump
    (p : t) (env : Turn) (rest : list Turn) (batch : list ReceivedEventData)
    (text : string) :
  _isReceiving p = true →
  receiveBatch env = undisturbed (Resolved batch) →
  processEvents env = undisturbed (Rejected (JsPrimitive text)) →
  let r := receive_loop (env :: rest) p in
  outcome r = Resolved finished
  ∧ _isReceiving (after r) = false
  ∧ calls r
    = [receive_call p; CallProcessEvents (partition p) batch;
       CallProcessError (partition p) (JsPrimitive text)]
      ++ swallowed (processError env)
      ++ shutdown_calls (closing env) None (meanwhile (processError env) p).
Proof.
  intros Hr Hb Hp r. subst r.
  rewrite receive_loop_cons by done.
  rewrite (turn_process_rejected env batch (JsPrimitive text) p Hr Hb)
    by (by rewrite Hp).
  rewrite Hp. change (meanwhile (undisturbed _) p) with p.
  rewrite (caught_not_object env (JsPrimitive text) p Hr).
  unfold shutdown_calls.
  change (reason_for None) with EventHubException.
  set (p1 := meanwhile (processError env) p).
  pose proof (stop_clears_isReceiving (closing env) EventHubException p1)
    as Hstop.
  unfold after in Hstop.
  destruct (stop (closing env) EventHubException p1) as [[[[]|e] p2] t2];
    cbn in Hstop.
  - unfold outcome, after, calls; cbn. by rewrite app_nil_r.
  - rewrite receive_loop_stopped by done.
    unfold outcome, after, calls; cbn. by rewrite app_nil_r.
Qed.

Lemma thrown_primitive_stops_pump_witness :
  calls (receive_loop
           [throwing_value (JsPrimitive "oops"); failing_receive JsNull]
           running_pump)
  = [ReceiveBatch "0" 1 None; CallProcessEvents "0" [event0];
     CallProcessError "0" (JsPrimitive "oops");
     CloseReceiver "0"; AbortPump "0"; CallClose "0" EventHubException].
Proof.
  exact (proj2 (proj2 (thrown_primitive_stops_pump running_pump
                         (throwing_value (JsPrimitive "oops"))
                         [failing_receive JsNull] [event0] "oops"
                         eq_refl eq_refl eq_refl))).
Defined.

(** X4.  [null] and [undefined] thrown by the user's [processEvents] are
    reported to [processError] and never stop the pump.  After
    [undefined] the [TypeError] of reading [err.name] is logged and the
    loop goes on.  After [null] the [TypeError] of reading
    [err.retryable] escapes: the promise of the loop rejects, the reader
    stays open, the user's [close] is not called, and the pump is left
    marked as receiving. *)
Theorem thrown_null_or_undefined_never_stops_pump
    (p : t) (env : Turn) (rest : list Turn) (batch : list ReceivedEventData) :
  _isReceiving p = true →
  receiveBatch env = undisturbed (Resolved batch) →
  interfered (processError env) = false →
  (processEvents env = undisturbed (Rejected JsUndefined) →
   receive_loop (env :: rest) p
   = prefixed_pump
       ([receive_call p; CallProcessEvents (partition p) batch;
         CallProcessError (partition p) JsUndefined]
        ++ swallowed (processError env)
        ++ [Log log_error
              "An error occurred while closing the receiver with reason EventHubException: "
              (Some TypeError)])
       (receive_loop rest p))
  ∧ (processEvents env = undisturbed (Rejected JsNull) →
     receive_loop (env :: rest) p
     = (Rejected TypeError, p,
        [receive_call p; CallProcessEvents (partition p) batch;
         CallProcessError (partition p) JsNull]
        ++ swallowed (processError env))).
Proof.
  intros Hr Hb Hi. split; intros Hp.
  - rewrite receive_loop_cons by done.
    rewrite (turn_process_rejected env batch JsUndefined p Hr Hb)
      by (by rewrite Hp).
    rewrite Hp. change (meanwhile (undisturbed _) p) with p.
    rewrite (caught_not_object env JsUndefined p Hr).
    unfold meanwhile. rewrite Hi.
    unfold prefixed_pump, outcome, after, calls.
    destruct (receive_loop rest p) as [[? ?] ?]. reflexivity.
  - rewrite receive_loop_cons by done.
    rewrite (turn_process_rejected env batch JsNull p Hr Hb)
      by (by rewrite Hp).
    rewrite Hp. change (meanwhile (undisturbed _) p) with p.
    rewrite (caught_not_object env JsNull p Hr).
    unfold meanwhile. rewrite Hi. reflexivity.
Qed.

Lemma thrown_null_or_undefined_never_stops_pump_witness :
  receive_loop [throwing_value JsNull] running_pump
  = (Rejected TypeError, running_pump,
     [ReceiveBatch "0" 1 None; CallProcessEvents "0" [event0];
      CallProcessError "0" JsNull])
  ∧ calls (receive_loop [throwing_value JsUndefined] running_pump)
    = [ReceiveBatch "0" 1 None; CallProcessEvents "0" [event0];
       CallProcessError "0" JsUndefined;
       Log log_error
         "An error occurred while closing the receiver with reason EventHubException: "
         (Some TypeError);
       ReceiveBatch "0" 1 None].
Proof.
  split.
  - exact (proj2 (thrown_null_or_undefined_never_stops_pump running_pump
                    (throwing_value JsNull) [] [event0]
                    eq_refl eq_refl eq_refl) eq_refl).
  - exact (f_equal calls
             (proj1 (thrown_null_or_undefined_never_stops_pump running_pump
                       (throwing_value JsUndefined) [] [event0]
                       eq_refl eq_refl eq_refl) eq_refl)).
Defined.

(** X5.  When [createConsumer] throws, the promise of [_receiveEvents] rejects
    with that error and [receiveBatch] is never called; [start] has
    resolved and logged its success all the same, and the pump is left
    marked as receiving with no reader.  A [stop] that follows finds no
    reader to close and goes on to the abort and to the user's [close]. *)
Theorem failed_createConsumer_leaves_pump_without_reader
    (env : Starting) (cl : Closing) (reason : CloseReason) (p : t)
    (e : JsValue) :
  _receiver p = None →
  createConsumer (receiving env) = Rejected e →
  interfered (initialize env) = false →
  let launched := set_isReceiving true p in
  let opening :=
    CreateConsumer (pc_consumerGroupName (_partitionContext p)) (partition p)
      (or_object (initialEventPosition (_processorOptions p)) earliest) 0 in
  _receiveEvents (partition p) (receiving env) launched
  = (Rejected e, launched, [opening])
  ∧ start env p
    = (Resolved tt, launched,
       initialized p
       ++ [opening;
           Log log_partitionPump "Successfully started the receiver." None])
  ∧ calls (stop cl reason (after (start env p)))
    = AbortPump (partition p)
      :: handler_closed reason p
      ++ match (if close_defined (_partitionProcessor p)
                then user_close cl else Resolved tt) with
         | Resolved _ => []
         | Rejected e' =>
             [Log log_error "An error occurred while closing the receiver."
                (Some e')]
         end.
Proof.
  intros Hrcv Hc Hi launched opening. subst launched opening.
  destruct p as [ctx [hi hc] o rcv isr ab], env as [[ini iini] [cc sc]].
  cbn in Hrcv, Hc, Hi. subst rcv cc iini.
  unfold initialized, handler_closed.
  split; [reflexivity|]. split.
  - destruct hi, ini as [[]|]; reflexivity.
  - destruct hi, ini as [[]|], hc, cl as [rc [[]|e']]; reflexivity.
Qed.

Lemma failed_createConsumer_leaves_pump_without_reader_witness :
  start (no_consumer TypeError) (new partition0 full_handler None)
  = (Resolved tt, set_isReceiving true (new partition0 full_handler None),
     [CallInitialize "0"; CreateConsumer "$Default" "0" earliest 0;
      Log log_partitionPump "Successfully started the receiver." None]).
Proof.
  exact (proj1 (proj2 (failed_createConsumer_leaves_pump_without_reader
                         (no_consumer TypeError) quiet_closing Shutdown
                         (new partition0 full_handler None) TypeError
                         eq_refl eq_refl eq_refl))).
Defined.

End MorePumpProperties.

(** ** The event processor *)

Section MoreProcessorProperties.
Import EventProcessor.
Variable handover :
  EventProcessorOptions → EventPosition → EventProcessorOptions.

(** X6.  When [claimOwnership] throws, the claim is given up: the failure is
    logged, the promise of [_claimOwnership] resolves, the user's factory
    is not called and the pump manager is not touched. *)
Theorem rejected_claim_is_given_up
    (partitionOwnershipMap : gmap string PartitionOwnership)
    (partitionIdToClaim : string) (env : Claiming) (p : t) (e : JsValue) :
  settles (claimOwnership env) = Rejected e →
  _claimOwnership handover partitionOwnershipMap partitionIdToClaim env p
  = (Resolved tt, disturbed (claimOwnership env) p,
     [Log log_partitionLoadBalancer
        "Attempting to claim ownership of partition." None;
      ClaimOwnership
        [_createPartitionOwnershipRequest partitionOwnershipMap
           partitionIdToClaim p];
      claim_failed]).
Proof. apply claim_rejected_only_logs. Qed.

(** X7.  The promise of [_claimOwnership] never rejects: whatever the store,
    the user's factory and the pump manager answer or throw, the error
    stays inside. *)
Theorem claim_contains_every_error
    (partitionOwnershipMap : gmap string PartitionOwnership)
    (partitionIdToClaim : string) (env : Claiming) (p : t) :
  outcome (_claimOwnership handover partitionOwnershipMap partitionIdToClaim
             env p) = Resolved tt.
Proof. apply claim_never_rejects. Qed.

(** X8.  When the user's factory throws after the store has granted the claim,
    the failure is logged without the error, no pump is created, and the
    promise resolves: the partition is owned in the store and nothing
    reads it. *)
Theorem throwing_factory_leaves_partition_without_pump
    (partitionOwnershipMap : gmap string PartitionOwnership)
    (partitionIdToClaim : string) (env : Claiming) (p : t)
    (won : list PartitionOwnership) (e : JsValue) :
  settles (claimOwnership env) = Resolved won →
  factory env = Rejected e →
  _claimOwnership handover partitionOwnershipMap partitionIdToClaim env p
  = (Resolved tt, disturbed (claimOwnership env) p,
     [Log log_partitionLoadBalancer
        "Attempting to claim ownership of partition." None;
      ClaimOwnership
        [_createPartitionOwnershipRequest partitionOwnershipMap
           partitionIdToClaim p];
      Log log_partitionLoadBalancer
        "Successfully claimed ownership of partition." None;
      Log log_partitionLoadBalancer
        "Calling user-provided PartitionProcessorFactory." None;
      CallFactory
        {| pc_consumerGroupName := _consumerGroupName p;
           pc_eventHubName := _eventHubName p;
           pc_partitionId := partitionIdToClaim |};
      claim_failed]).
Proof.
  intros Hc Hf. destruct env as [[a i] f c s]. cbn in Hc, Hf. subst a f.
  destruct i, p as [g h o pm id run task [ctl|] heap]; reflexivity.
Qed.

Lemma ownership_map_skips (key : string) (later : list PartitionOwnership)
    (m : gmap string PartitionOwnership) :
  Forall (λ o, partitionId o ≠ key) later →
  foldl (λ m ownership, <[partitionId ownership := ownership]> m) m later
    !! key = m !! key.
Proof.
  intros Hall. revert m. induction Hall as [|o later Ho _ IH]; intros m.
  - reflexivity.
  - cbn. rewrite IH. by rewrite lookup_insert_ne.
Qed.

(** X9.  The request for a partition carries the [eTag], the [offset] and the
    [sequenceNumber] of the last record [listOwnership] gave for that
    partition, whatever was listed for it before; when no record was given
    for the partition the three are missing.  The owner is always the
    processor itself, at owner level 0. *)
Theorem request_carries_last_listed_record
    (earlier later : list PartitionOwnership) (previous : PartitionOwnership)
    (pid : string) (p : t) :
  (partitionId previous = pid →
   Forall (λ o, partitionId o ≠ pid) later →
   _createPartitionOwnershipRequest
     (ownership_map (earlier ++ previous :: later)) pid p
   = {| eventHubName := _eventHubName p;
        consumerGroupName := _consumerGroupName p;
        ownerId := _id p;
        partitionId := pid;
        ownerLevel := 0;
        offset := offset previous;
        sequenceNumber := sequenceNumber previous;
        lastModifiedTimeInMS := None;
        eTag := eTag previous |})
  ∧ (Forall (λ o, partitionId o ≠ pid) later →
     _createPartitionOwnershipRequest (ownership_map later) pid p
     = {| eventHubName := _eventHubName p;
          consumerGroupName := _consumerGroupName p;
          ownerId := _id p;
          partitionId := pid;
          ownerLevel := 0;
          offset := None;
          sequenceNumber := None;
          lastModifiedTimeInMS := None;
          eTag := None |}).
Proof.
  split.
  - intros Hpid Hlater. unfold _createPartitionOwnershipRequest, ownership_map.
    rewrite foldl_app. cbn [foldl].
    rewrite (ownership_map_skips pid later) by done.
    rewrite <- Hpid. by rewrite lookup_insert_eq.
  - intros Hlater. unfold _createPartitionOwnershipRequest, ownership_map.
    rewrite (ownership_map_skips pid later) by done.
    by rewrite lookup_empty.
Qed.

Lemma stop_called_aborts (signal : nat) (p : t) :
  _abortController p = Some signal →
  (signal < length (controllers p))%nat →
  aborted signal (stop_called p) = true.
Proof.
  intros Hc Hlt. unfold aborted, stop_called. rewrite Hc.
  cbn. by rewrite list_lookup_insert_eq.
Qed.

(** X10.  A turn that finds nothing to claim, because the Event Hub has no
    partition or because the load balancer picks none (it answers
    [undefined] or the empty string), makes no claim and creates no pump;
    it still pauses, and the loop goes on, also when the pause is cut short
    by an error, which is logged.  Only an error of the pause that has no
    conversion to a string makes the turn reject, with the error of the
    conversion and without a line logged. *)
Theorem turn_without_claim_still_pauses
    (signal : nat) (env : Tick) (p : t)
    (owned : list PartitionOwnership) (ids : list string) :
  let p2 := disturbed (getPartitionIds env) (disturbed (listOwnership env) p) in
  settles (listOwnership env) = Resolved owned →
  settles (getPartitionIds env) = Resolved ids →
  aborted signal p2 = false →
  (ids = [] ∨ ∃ choice, loadBalance env = Resolved choice
                        ∧ truthy choice = None) →
  (pause_legible env →
   tick handover signal env p
   = (Resolved next_turn, disturbed (delay env) p2,
      [ListOwnership (_eventHubName p) (_consumerGroupName p); GetPartitionIds]
      ++ (if ids is [] then [] else [LoadBalance ids])
      ++ [pausing; Delay 10000 signal] ++ delay_error (delay env)))
  ∧ (∀ e e',
       settles (delay env) = Rejected e →
       to_text (error_text env) e = Rejected e' →
       tick handover signal env p
       = (Rejected e', disturbed (delay env) p2,
          [ListOwnership (_eventHubName p) (_consumerGroupName p);
           GetPartitionIds]
          ++ (if ids is [] then [] else [LoadBalance ids])
          ++ [pausing; Delay 10000 signal])).
Proof.
  intros p2 Hlo Hgp Ha Hnone. subst p2.
  destruct env as [[lo i1] [gp i2] lb cl [dl i4] et].
  unfold pause_legible.
  cbn -[to_text] in Hlo, Hgp, Hnone, Ha |- *. subst lo gp.
  unfold tick, delay_error. unfold_async.
  cbn -[_claimOwnership aborted to_text].
  unfold disturbed in Ha |- *. cbn -[to_text] in Ha |- *.
  replace (aborted signal
             ((if i2 then stop_called else id)
                ((if i1 then stop_called else id) p))) with false
    by (by destruct i1, i2).
  cbn -[_claimOwnership aborted to_text].
  assert (Hids : ids = []
                 ∨ ∃ id0 rest choice,
                     ids = id0 :: rest ∧ lb = Resolved choice
                     ∧ truthy choice = None).
  { destruct ids as [|id0 rest]; [by left|right].
    destruct Hnone as [|(choice & ? & ?)]; [done|].
    by exists id0, rest, choice. }
  split.
  - intros Hpl.
    destruct Hids as [->|(id0 & rest & choice & -> & -> & Hch)];
      cbn -[_claimOwnership aborted to_text]; rewrite ?Hch;
      (destruct dl as [[]|e];
       [|rewrite (Hpl e eq_refl)];
       destruct i1, i2, i4; reflexivity).
  - intros e e' -> Ht.
    destruct Hids as [->|(id0 & rest & choice & -> & -> & Hch)];
      cbn -[_claimOwnership aborted to_text]; rewrite ?Hch, ?Ht;
      destruct i1, i2, i4; reflexivity.
Qed.

(** X11.  When [stop] is called while the loop awaits [listOwnership] or
    [getPartitionIds], the loop returns as soon as both have answered: the
    load balancer is not asked, nothing is claimed, there is no pause, and
    the rest of the script never happens. *)
Theorem abort_before_load_balancing_ends_loop
    (signal : nat) (env : Tick) (rest : list Tick) (p : t)
    (owned : list PartitionOwnership) (ids : list string) :
  _abortController p = Some signal →
  (signal < length (controllers p))%nat →
  aborted signal p = false →
  settles (listOwnership env) = Resolved owned →
  settles (getPartitionIds env) = Resolved ids →
  interfered (listOwnership env) || interfered (getPartitionIds env) = true →
  _runLoop handover signal (env :: rest) p
  = (Resolved finished, stop_called p,
     [ListOwnership (_eventHubName p) (_consumerGroupName p);
      GetPartitionIds]).
Proof.
  intros Hc Hlt Ha Hlo Hgp Hi.
  rewrite runLoop_cons by done.
  destruct env as [[lo i1] [gp i2] lb cl dl].
  cbn in Hlo, Hgp, Hi. subst lo gp.
  assert (Hst : (if i2 then stop_called else id)
                  ((if i1 then stop_called else id) p) = stop_called p).
  { destruct i1, i2; try done. cbn. apply stop_called_again. }
  unfold tick. unfold_async. cbn -[_claimOwnership aborted].
  rewrite Hst. rewrite (stop_called_aborts signal p Hc Hlt).
  reflexivity.
Qed.

(** X12.  [start] after [stop] restarts the processor with a controller of its
    own: the new loop watches a token that is not aborted, while every
    token aborted so far, the one of the previous run included, stays
    aborted, so a loop of the previous run cannot go on. *)
Theorem start_after_stop_restarts (env : Stopping) (p : t) :
  let stopped := after (stop handover env p) in
  let fresh := length (controllers p) in
  let restarted := after (start handover stopped) in
  start handover stopped
  = (Resolved tt,
     set_loopTask (Some fresh) (new_controller (set_isRunning true stopped)),
     [NewAbortController fresh;
      Log log_eventProcessor "Starting an EventProcessor." None;
      LaunchLoop fresh;
      ListOwnership (_eventHubName p) (_consumerGroupName p)])
  ∧ _isRunning restarted = true
  ∧ aborted fresh restarted = false
  ∧ (∀ old : nat, aborted old stopped = true → aborted old restarted = true)
  ∧ (∀ previous : nat,
       _abortController p = Some previous →
       (previous < length (controllers p))%nat →
       aborted previous restarted = true).
Proof.
  intros stopped fresh restarted.
  destruct (stop_leaves_control handover env p) as (pumps & Hstopped).
  fold stopped in Hstopped.
  assert (Hlen : length (controllers stopped) = fresh).
  { rewrite Hstopped. subst fresh.
    destruct p as [g h o pm i run task [c|] heap]; cbn;
      by rewrite ?length_insert. }
  assert (Hstart : start handover stopped
            = (Resolved tt,
               set_loopTask (Some fresh)
                 (new_controller (set_isRunning true stopped)),
               [NewAbortController fresh;
                Log log_eventProcessor "Starting an EventProcessor." None;
                LaunchLoop fresh;
                ListOwnership (_eventHubName p) (_consumerGroupName p)])).
  { rewrite (start_launches handover stopped)
      by (rewrite Hstopped; by destruct p as [g h o pm i run task [c|] heap]).
    rewrite Hlen. rewrite Hstopped.
    by destruct p as [g h o pm i run task [c|] heap]. }
  assert (Hold : ∀ old : nat,
            aborted old stopped = true → aborted old restarted = true).
  { intros old Hab. subst restarted. rewrite Hstart.
    unfold after, aborted in *. cbn.
    destruct (controllers stopped !! old) as [b|] eqn:Hl; [|done].
    by rewrite (lookup_app_l_Some _ _ _ _ Hl). }
  split; [exact Hstart|]. split; [by subst restarted; rewrite Hstart|].
  split; [|split; [exact Hold|]].
  - subst restarted. rewrite Hstart. unfold after. cbn -[new_controller].
    rewrite <- Hlen.
    exact (new_controller_not_aborted (set_isRunning true stopped)).
  - intros previous Hc Hlt. apply Hold. rewrite Hstopped.
    exact (stop_called_aborts previous p Hc Hlt).
Qed.

End MoreProcessorProperties.

Section ProcessorWitnesses.
Import EventProcessor.

Lemma request_carries_last_listed_record_witness :
  eTag (_createPartitionOwnershipRequest
          (ownership_map
             [checkpointed (Some 7); stale_record; checkpointed (Some 42);
              other_partition_record])
          "1" (fresh_processor None))
  = Some "E1"%string
  ∧ sequenceNumber
      (_createPartitionOwnershipRequest
         (ownership_map
            [checkpointed (Some 7); stale_record; checkpointed (Some 42);
             other_partition_record])
         "1" (fresh_processor None))
    = Some 42.
Proof.
  pose proof (proj1 (request_carries_last_listed_record
                       [checkpointed (Some 7); stale_record]
                       [other_partition_record] (checkpointed (Some 42))
                       "1" (fresh_processor None))
                eq_refl ltac:(repeat constructor; discriminate)) as H.
  split.
  - exact (f_equal eTag H).
  - exact (f_equal sequenceNumber H).
Defined.

Lemma turn_without_claim_still_pauses_witness :
  tick own_options 0 no_partitions_tick started_processor
  = (Resolved next_turn, started_processor,
     [ListOwnership "hub" "$Default"; GetPartitionIds; pausing;
      Delay 10000 0]).
Proof.
  apply (turn_without_claim_still_pauses own_options 0 no_partitions_tick
           started_processor [] []); try reflexivity.
  - by left.
  - intros e He. discriminate He.
Defined.

Lemma abort_before_load_balancing_ends_loop_witness :
  _runLoop own_options 0 [stopped_while_listing; quiet_tick] started_processor
  = (Resolved finished, stop_called started_processor,
     [ListOwnership "hub" "$Default"; GetPartitionIds]).
Proof.
  apply (abort_before_load_balancing_ends_loop own_options 0 stopped_while_listing
           [quiet_tick] started_processor [checkpointed (Some 42)]
           ["0"; "1"]%string); try reflexivity.
  vm_compute. lia.
Defined.

Lemma start_after_stop_restarts_witness :
  aborted 0
    (after (start own_options
              (after (stop own_options quiet_stop started_processor)))) = true
  ∧ aborted 1
      (after (start own_options
                (after (stop own_options quiet_stop started_processor)))) = false.
Proof.
  pose proof (start_after_stop_restarts own_options quiet_stop started_processor)
    as (_ & _ & Hfresh & _ & Hprevious).
  split.
  - apply (Hprevious 0%nat); [reflexivity | vm_compute; lia].
  - exact Hfresh.
Defined.

Lemma rejected_claim_is_given_up_witness :
  _claimOwnership own_options {[ "1"%string := checkpointed (Some 42) ]} "1"
    (claim_answered (Rejected store_down)) (fresh_processor None)
  = (Resolved tt, fresh_processor None,
     [Log log_partitionLoadBalancer
        "Attempting to claim ownership of partition." None;
      ClaimOwnership [request1 (Some (checkpointed (Some 42)))];
      claim_failed]).
Proof.
  exact (rejected_claim_is_given_up own_options
           {[ "1"%string := checkpointed (Some 42) ]} "1"
           (claim_answered (Rejected store_down)) (fresh_processor None)
           store_down eq_refl).
Defined.

Lemma throwing_factory_leaves_partition_without_pump_witness :
  _claimOwnership own_options ∅ "1" factory_throws (fresh_processor None)
  = (Resolved tt, fresh_processor None,
     [Log log_partitionLoadBalancer
        "Attempting to claim ownership of partition." None;
      ClaimOwnership [request1 None];
      Log log_partitionLoadBalancer
        "Successfully claimed ownership of partition." None;
      Log log_partitionLoadBalancer
        "Calling user-provided PartitionProcessorFactory." None;
      CallFactory partition1;
      claim_failed]).
Proof.
  exact (throwing_factory_leaves_partition_without_pump own_options ∅ "1" factory_throws
           (fresh_processor None) [request1 None]
           (JsObject (Some "Error"%string) false) eq_refl eq_refl).
Defined.

End ProcessorWitnesses.

(** ** Retry options *)

Section RetryProperties.
Import Retry.
Variable defaultOperationTimeoutInMs : QArith_base.Q.

(** X13.  The timeout of a retry attempt is always a finite number that is
    not below the default, whatever the options hold; a finite number that
    is not below the default is returned as it is. *)
Theorem retry_timeout_is_finite_and_at_least_default
    (retryOptions : option RetryOptions) :
  (∃ q, getRetryAttemptTimeoutInMs defaultOperationTimeoutInMs retryOptions
        = Finite q
        ∧ QArith_base.Qle defaultOperationTimeoutInMs q)
  ∧ (∀ options q,
       retryOptions = Some options →
       timeoutInMs options = number (Finite q) →
       QArith_base.Qle defaultOperationTimeoutInMs q →
       getRetryAttemptTimeoutInMs defaultOperationTimeoutInMs retryOptions
       = Finite q).
Proof.
  split.
  - destruct retryOptions as [[field]|]; cbn;
      [|eexists; split; [reflexivity|apply QArith_base.Qle_refl]].
    destruct field as [| |[| | |q]]; cbn;
      try (eexists; split; [reflexivity|apply QArith_base.Qle_refl]).
    destruct (QArith_base.Qle_bool defaultOperationTimeoutInMs q) eqn:Hle; cbn.
    + exists q. split; [reflexivity|].
      by apply QArith_base.Qle_bool_iff.
    + eexists; split; [reflexivity|apply QArith_base.Qle_refl].
  - intros options q -> Hfield Hle. cbn. rewrite Hfield. cbn.
    apply QArith_base.Qle_bool_iff in Hle. by rewrite Hle.
Qed.

(** X14.  Computing the timeout again from options that hold the computed
    timeout gives the same number. *)
Theorem retry_timeout_is_idempotent (retryOptions : option RetryOptions) :
  getRetryAttemptTimeoutInMs defaultOperationTimeoutInMs
    (Some {| timeoutInMs :=
               number (getRetryAttemptTimeoutInMs defaultOperationTimeoutInMs
                         retryOptions) |})
  = getRetryAttemptTimeoutInMs defaultOperationTimeoutInMs retryOptions.
Proof.
  assert (Hrefl : QArith_base.Qle_bool defaultOperationTimeoutInMs
                    defaultOperationTimeoutInMs = true)
    by (apply QArith_base.Qle_bool_iff, QArith_base.Qle_refl).
  destruct retryOptions as [[field]|]; cbn; [|by rewrite Hrefl].
  destruct field as [| |[| | |q]]; cbn; try (by rewrite Hrefl).
  destruct (QArith_base.Qle_bool defaultOperationTimeoutInMs q) eqn:Hle; cbn.
  - by rewrite Hle.
  - by rewrite Hrefl.
Qed.
End RetryProperties.

Section RetryWitnesses.
Import Retry.

Lemma retry_timeout_is_finite_and_at_least_default_witness :
  getRetryAttemptTimeoutInMs one_minute
    (Some {| timeoutInMs := number (Finite two_minutes) |})
  = Finite two_minutes
  ∧ getRetryAttemptTimeoutInMs one_minute
      (Some {| timeoutInMs := number (Finite half_minute) |})
    = Finite one_minute.
Proof.
  split.
  - apply (proj2 (retry_timeout_is_finite_and_at_least_default one_minute
                    (Some {| timeoutInMs := number (Finite two_minutes) |}))
             {| timeoutInMs := number (Finite two_minutes) |} two_minutes);
      [reflexivity|reflexivity|].
    vm_compute. discriminate.
  - reflexivity.
Defined.
End RetryWitnesses.

(** ** The client *)

Ltac unfold_task :=
  unfold mbind, mret, EventHubClient.client_bind, EventHubClient.client_ret,
    Sender.sender_bind, Sender.sender_ret,
    Task.await, Task.bind, Task.ret, Task.try_catch, Task.emit, Task.gets,
    Task.modify, Task.settle, Task.throw in *.

Section ClientCloseProperties.
Import EventHubClient.
Variable instanceof_Error : JsValue → bool.
Variable JSON_stringify : JsValue → Settled JsValue.

Lemma close_each_cons (call : string → Call) (answer : string → Settled unit)
    (name : string) (rest : list string) (context : ConnectionContext) :
  close_each call answer (name :: rest) context
  = match answer name with
    | Resolved _ =>
        match close_each call answer rest context with
        | (r, s, l) => (r, s, call name :: l)
        end
    | Rejected e => (Rejected e, context, [call name])
    end.
Proof.
  cbn [close_each]. unfold_task. cbn -[close_each].
  destruct (answer name) as [[]|e]; [|reflexivity].
  by destruct (close_each call answer rest context) as [[r s] l].
Qed.

Lemma close_each_resolved (call : string → Call) (answer : string → Settled unit)
    (names : list string) (context : ConnectionContext) :
  (∀ name, name ∈ names → answer name = Resolved tt) →
  close_each call answer names context = (Resolved tt, context, map call names).
Proof.
  induction names as [|name rest IH]; intros Hall; [reflexivity|].
  rewrite close_each_cons, (Hall name) by set_solver.
  rewrite IH by (intros; apply Hall; set_solver).
  reflexivity.
Qed.


(** Closing the links one by one never touches the context. *)
Lemma close_each_keeps_context (call : string → Call)
    (answer : string → Settled unit) (names : list string)
    (context : ConnectionContext) :
  (close_each call answer names context).1.2 = context.
Proof.
  induction names as [|name rest IH]; [reflexivity|].
  rewrite close_each_cons.
  destruct (answer name) as [[]|e]; [|reflexivity].
  by destruct (close_each call answer rest context) as [[r s] l].
Qed.

(** X15.  [close] on a connection that is not open closes nothing and
    leaves the context as it is.  On an open connection whose links and
    sessions all close, it closes the senders, then the receivers, then the
    two sessions, then the connection, and only then marks the context. *)
Theorem close_closes_links_sessions_connection_in_order
    (env : Closing) (context : ConnectionContext) :
  (isOpen env = false →
   close instanceof_Error JSON_stringify env context
   = (Resolved tt, context, []))
  ∧ (isOpen env = true →
     (∀ name, name ∈ senderNames env → sender_closes env name = Resolved tt) →
     (∀ name, name ∈ receiverNames env → receiver_closes env name = Resolved tt) →
     cbsSession_closes env = Resolved tt →
     managementSession_closes env = Resolved tt →
     connection_closes env = Resolved tt →
     close instanceof_Error JSON_stringify env context
     = (Resolved tt, set_wasConnectionCloseCalled true context,
        map sender_close (senderNames env)
        ++ map receiver_close (receiverNames env)
        ++ [cbsSession_close; managementSession_close; connection_close;
            log_client_line "Closed the amqp connection '%s' on the client."])).
Proof.
  split.
  - intros Hopen. unfold close. rewrite Hopen. reflexivity.
  - intros Hopen Hsenders Hreceivers Hcbs Hmanagement Hconnection.
    unfold close. rewrite Hopen. unfold_task.
    rewrite (close_each_resolved _ _ _ _ Hsenders).
    rewrite (close_each_resolved _ _ _ _ Hreceivers).
    rewrite Hcbs, Hmanagement, Hconnection. reflexivity.
Qed.


(** X17.  Whatever the links, the sessions and the connection answer,
    [close] changes the context only by marking it, and it marks it exactly
    when the connection was open and the promise resolves; a rejected
    [close] leaves the context as it was. *)
Theorem close_marks_context_only_when_it_resolves
    (env : Closing) (context : ConnectionContext) :
  match (close instanceof_Error JSON_stringify env context).1.1 with
  | Resolved _ =>
      (close instanceof_Error JSON_stringify env context).1.2
      = if isOpen env then set_wasConnectionCloseCalled true context
        else context
  | Rejected _ =>
      (close instanceof_Error JSON_stringify env context).1.2 = context
  end.
Proof.
  unfold close. destruct (isOpen env); [|reflexivity].
  unfold_task.
  pose proof (close_each_keeps_context sender_close (sender_closes env)
                (senderNames env) context) as Hs.
  destruct (close_each sender_close (sender_closes env) (senderNames env)
              context) as [[rs cs] ls].
  cbn in Hs. subst cs.
  destruct rs as [[]|e].
  2:{ cbn. by destruct (as_error_or_text _ _ e). }
  pose proof (close_each_keeps_context receiver_close (receiver_closes env)
                (receiverNames env) context) as Hr.
  destruct (close_each receiver_close (receiver_closes env) (receiverNames env)
              context) as [[rr cr] lr].
  cbn in Hr. subst cr.
  destruct rr as [[]|e].
  2:{ cbn. by destruct (as_error_or_text _ _ e). }
  destruct (cbsSession_closes env) as [[]|e].
  2:{ cbn. by destruct (as_error_or_text _ _ e). }
  destruct (managementSession_closes env) as [[]|e].
  2:{ cbn. by destruct (as_error_or_text _ _ e). }
  destruct (connection_closes env) as [[]|e].
  2:{ cbn. by destruct (as_error_or_text _ _ e). }
  reflexivity.
Qed.

End ClientCloseProperties.

Section ClientQueryProperties.
Import EventHubClient.
Variable throwErrorIfConnectionClosed : ConnectionContext → Settled unit.

(** X18.  [getPartitionIds] makes no call when the connection check throws;
    otherwise it asks for the runtime information once, answers its
    partition ids, and passes an error on unchanged after logging it twice,
    once in [getProperties] and once itself. *)
Theorem getPartitionIds_passes_errors_unchanged
    (answer : Settled EventHubProperties) (context : ConnectionContext) :
  (∀ e, throwErrorIfConnectionClosed context = Rejected e →
        getPartitionIds throwErrorIfConnectionClosed answer context
        = (Rejected e, context, []))
  ∧ (throwErrorIfConnectionClosed context = Resolved tt →
     getPartitionIds throwErrorIfConnectionClosed answer context
     = match answer with
       | Resolved runtimeInfo =>
           (Resolved (partitionIds runtimeInfo), context,
            [getHubRuntimeInformation])
       | Rejected e =>
           (Rejected e, context,
            [getHubRuntimeInformation;
             log_error_line
               "An error occurred while getting the hub runtime information: %O"
               (Some e);
             log_error_line
               "An error occurred while getting the partition ids: %O"
               (Some e)])
       end).
Proof.
  split.
  - intros e Hcheck. unfold getPartitionIds. unfold_task. cbn.
    by rewrite Hcheck.
  - intros Hcheck. unfold getPartitionIds, getProperties. unfold_task. cbn.
    rewrite Hcheck. by destruct answer.
Qed.
End ClientQueryProperties.

Section ClientWitnesses.
Import EventHubClient.

Lemma close_closes_links_sessions_connection_in_order_witness :
  close object_is_error stringified (closing_client false (Resolved tt))
    open_context
  = (Resolved tt, open_context, [])
  ∧ close object_is_error stringified (closing_client true (Resolved tt))
      open_context
    = (Resolved tt, {| wasConnectionCloseCalled := true |},
       [sender_close "s1"; sender_close "s2"; sender_close "s3";
        receiver_close "r1"; cbsSession_close; managementSession_close;
        connection_close;
        log_client_line "Closed the amqp connection '%s' on the client."]).
Proof.
  split.
  - apply (proj1 (close_closes_links_sessions_connection_in_order
                    object_is_error stringified
                    (closing_client false (Resolved tt)) open_context)).
    reflexivity.
  - apply (proj2 (close_closes_links_sessions_connection_in_order
                    object_is_error stringified
                    (closing_client true (Resolved tt)) open_context));
      try reflexivity.
    + intros name _. cbn. by case_bool_decide.
Defined.


Lemma getPartitionIds_passes_errors_unchanged_witness :
  getPartitionIds closed_check (Rejected AbortError) open_context
  = (Rejected AbortError, open_context,
     [getHubRuntimeInformation;
      log_error_line
        "An error occurred while getting the hub runtime information: %O"
        (Some AbortError);
      log_error_line "An error occurred while getting the partition ids: %O"
        (Some AbortError)])
  ∧ getPartitionIds closed_check (Resolved two_partitions)
      {| wasConnectionCloseCalled := true |}
    = (Rejected (JsObject (Some "Error"%string) false),
       {| wasConnectionCloseCalled := true |}, []).
Proof.
  split.
  - apply (proj2 (getPartitionIds_passes_errors_unchanged closed_check
                    (Rejected AbortError) open_context)).
    reflexivity.
  - apply (proj1 (getPartitionIds_passes_errors_unchanged closed_check
                    (Resolved two_partitions)
                    {| wasConnectionCloseCalled := true |})).
    reflexivity.
Defined.
End ClientWitnesses.

(** ** The senders *)

Section SenderProperties.
Import Sender.
Context {EventData : Type}.
Variable throwErrorIfConnectionClosed : ConnectionContext → Settled unit.

(** X19.  Once [close] has resolved, the sender refuses to send: [send]
    logs and throws the error of a closed sender and never reaches the
    link, whether or not there was a link to close. *)
Theorem send_after_close_is_refused
    (env : Closing) (s : t) (events : Events EventData)
    (options : option Options) (answer : Settled unit) :
  (close (EventData := EventData) env s).1.1 = Resolved tt →
  throwErrorIfConnectionClosed
    (_context (close (EventData := EventData) env s).1.2) = Resolved tt →
  send throwErrorIfConnectionClosed events options answer
    (close (EventData := EventData) env s).1.2
  = (Rejected sender_closed_error, set_isClosed true s,
     [log_error_line "[%s] %O" (Some sender_closed_error)]).
Proof.
  intros Hclose Hcheck.
  unfold close, send, _throwIfSenderOrConnectionClosed in *. unfold_task.
  destruct (bool_decide (connection env = Some true) && registered env);
    cbn in *.
  - destruct (link_closes env) as [[]|e]; cbn in *; [|discriminate].
    by rewrite Hcheck.
  - by rewrite Hcheck.
Qed.

(** X20.  When the link fails to close, [close] logs the error and throws
    it unchanged, and the sender is not marked closed: a later [send] on an
    open connection still reaches the link. *)
Theorem failed_close_leaves_sender_usable
    (env : Closing) (s : t) (e : JsValue) (events : Events EventData)
    (options : option Options) (answer : Settled unit) :
  connection env = Some true →
  registered env = true →
  link_closes env = Rejected e →
  _isClosed s = false →
  throwErrorIfConnectionClosed
    (_context (close (EventData := EventData) env s).1.2) = Resolved tt →
  close (EventData := EventData) env s
  = (Rejected e, s,
     [link_close;
      log_error_line "[%s] An error occurred while closing the Sender for %s: %O"
        (Some e)])
  ∧ send throwErrorIfConnectionClosed events options answer
      (close (EventData := EventData) env s).1.2
    = (answer, s,
       [link_send (as_array events) (spread (_requestOptions s) options)]).
Proof.
  intros Hconnection Hregistered Hlink Hopen Hcheck.
  assert (Hclose : close (EventData := EventData) env s
                   = (Rejected e, s,
                      [link_close;
                       log_error_line
                         "[%s] An error occurred while closing the Sender for %s: %O"
                         (Some e)])).
  { unfold close. unfold_task.
    rewrite Hconnection, Hregistered, Hlink. reflexivity. }
  split; [exact Hclose|].
  rewrite Hclose in Hcheck |- *. cbn [fst snd] in Hcheck |- *.
  unfold send, _throwIfSenderOrConnectionClosed. unfold_task. cbn.
  rewrite Hcheck, Hopen. cbn. by destruct answer.
Qed.

(** X21.  [send] reaches the link exactly when neither the connection nor
    the sender is closed; it then passes the events as an array, and among
    the options a property given to [send] takes the place of the sender's
    own. *)
Theorem send_reaches_link_only_when_open
    (s : t) (events : Events EventData) (options : option Options)
    (answer : Settled unit) :
  ((∃ sent used,
      link_send sent used
      ∈ (send throwErrorIfConnectionClosed events options answer s).2)
   ↔ throwErrorIfConnectionClosed (_context s) = Resolved tt
     ∧ _isClosed s = false)
  ∧ (∀ sent used,
       link_send sent used
       ∈ (send throwErrorIfConnectionClosed events options answer s).2 →
       sent = as_array events
       ∧ ∀ key,
           used !! key
           = match options ≫= (λ given, given !! key) with
             | Some value => Some value
             | None => _requestOptions s !! key
             end).
Proof.
  unfold send, _throwIfSenderOrConnectionClosed. unfold_task. cbn.
  destruct (throwErrorIfConnectionClosed (_context s)) as [[]|e]; cbn.
  2:{ split; [split|].
      - intros (sent & used & Hin). by apply elem_of_nil in Hin.
      - by intros [? _].
      - intros sent used Hin. by apply elem_of_nil in Hin. }
  destruct (_isClosed s); cbn.
  { split; [split|].
    - intros (sent & used & Hin).
      apply list_elem_of_singleton in Hin. discriminate.
    - by intros [_ ?].
    - intros sent used Hin.
      apply list_elem_of_singleton in Hin. discriminate. }
  split; [split|].
  - done.
  - intros _. exists (as_array events), (spread (_requestOptions s) options).
    destruct answer; cbn; set_solver.
  - intros sent used Hin.
    assert (Hsent : link_send sent used
                    = link_send (as_array events)
                        (spread (_requestOptions s) options)).
    { destruct answer; cbn in Hin;
        by apply list_elem_of_singleton in Hin. }
    injection Hsent as -> ->. split; [reflexivity|].
    intros key. unfold spread.
    rewrite lookup_union.
    destruct options as [given|]; unfold or_object, mbind, option_bind.
    + destruct (given !! key), (_requestOptions s !! key); reflexivity.
    + rewrite lookup_empty. by destruct (_requestOptions s !! key).
Qed.
End SenderProperties.

Section SenderWitnesses.
Import Sender.

Lemma send_after_close_is_refused_witness :
  send closed_check (single "event"%string) None (Resolved tt)
    (close (EventData := string) (closing_sender (Resolved tt)) fresh_sender).1.2
  = (Rejected sender_closed_error, set_isClosed true fresh_sender,
     [log_error_line "[%s] %O" (Some sender_closed_error)]).
Proof.
  apply (send_after_close_is_refused closed_check
           (closing_sender (Resolved tt)) fresh_sender);
    reflexivity.
Defined.

Lemma failed_close_leaves_sender_usable_witness :
  close (EventData := string) (closing_sender (Rejected JsNull)) fresh_sender
  = (Rejected JsNull, fresh_sender,
     [link_close;
      log_error_line "[%s] An error occurred while closing the Sender for %s: %O"
        (Some JsNull)])
  ∧ send closed_check (single "event"%string) None (Resolved tt)
      (close (EventData := string) (closing_sender (Rejected JsNull))
         fresh_sender).1.2
    = (Resolved tt, fresh_sender,
       [link_send (as_array (single "event"%string))
          (spread (_requestOptions fresh_sender) None)]).
Proof.
  apply (failed_close_leaves_sender_usable closed_check
           (closing_sender (Rejected JsNull)) fresh_sender JsNull);
    reflexivity.
Defined.
End SenderWitnesses.
